(** * The chunk / normalize / extract / dedupe pipeline of the RPG use-case scripts

    A shallow embedding of the pure helpers shared by the scripts under
    [scripts/work]: the line chunkers (strict and permissive), the header
    normalizer, the title/ID extractors and the fuzzy deduplicator.

    Python values are modelled as follows.
    - [int] is [Z]; [len] is [Z.of_nat (length _)].
    - [str] is [string]; a character is a code point below 256.
    - a call that can raise returns a [result].
    - [difflib.SequenceMatcher(None, a, b).ratio()] belongs to the Python
      library, not to the scripts: the theorems take it as a variable with
      values in [Q], and [Difflib.ratio] follows the library's source where
      an example needs its values. *)

From Stdlib Require Import ZArith List String Ascii Bool Lia QArith DecimalString.
Import ListNotations.

Local Close Scope Q_scope.

Local Open Scope list_scope.
Local Open Scope string_scope.

(** ** Python builtins used by the scripts *)

Module Py.

Inductive result (A : Type) : Type :=
| Ok (a : A)
| ValueError (msg : string).
Arguments Ok {A} a.
Arguments ValueError {A} msg.

Definition len {A} (l : list A) : Z := Z.of_nat (List.length l).

(** Number of items of [range(0, stop, step)] for a non-zero [step]. *)
Definition range_len (stop step : Z) : Z :=
  if (0 <? step)%Z then
    (if (0 <? stop)%Z then (stop - 1) / step + 1 else 0)%Z
  else
    (if (stop <? 0)%Z then (- stop - 1) / (- step) + 1 else 0)%Z.

(** [range(0, stop, step)]; a zero step raises [ValueError]. *)
Definition range (stop step : Z) : result (list Z) :=
  if (step =? 0)%Z then ValueError "range() arg 3 must not be zero"
  else Ok (map (fun k => (Z.of_nat k * step)%Z)
               (seq 0 (Z.to_nat (range_len stop step)))).

(** Slice bounds: a negative index counts from the end, and both ends are
    clamped to [0, len]. *)
Definition clamp_index (n idx : Z) : Z :=
  if (idx <? 0)%Z then Z.max 0 (idx + n) else Z.min idx n.

(** [l[lo:hi]] *)
Definition slice {A} (l : list A) (lo hi : Z) : list A :=
  let n := len l in
  let lo' := clamp_index n lo in
  let hi' := clamp_index n hi in
  firstn (Z.to_nat (hi' - lo')) (skipn (Z.to_nat lo') l).

Definition nl : ascii := "010"%char.

(** ['\n'.join(ls)] *)
Definition join_nl (ls : list string) : string :=
  String.concat (String nl "") ls.

(** [s.split('\n')] *)
Fixpoint split_nl (s : string) : list string :=
  match s with
  | "" => [""]
  | String c s' =>
      if Ascii.eqb c nl then "" :: split_nl s'
      else match split_nl s' with
           | [] => [String c ""]
           | l :: ls => String c l :: ls
           end
  end.

(** [old in s] *)
Fixpoint contains (old s : string) : bool :=
  String.prefix old s ||
  match s with
  | "" => false
  | String _ s' => contains old s'
  end.

(** [s.replace(old, new)] for a non-empty [old]: occurrences are found left
    to right and do not overlap.  [skip] counts the characters of a matched
    occurrence that remain to be passed over. *)
Fixpoint replace_from (old new : string) (skip : nat) (s : string) : string :=
  match s with
  | "" => ""
  | String c s' =>
      match skip with
      | S k => replace_from old new k s'
      | O =>
          if String.prefix old s
          then new ++ replace_from old new (String.length old - 1) s'
          else String c (replace_from old new 0 s')
      end
  end.

Definition replace (old new s : string) : string := replace_from old new 0 s.

(** [s[:n]] for [n >= 0] *)
Fixpoint take (n : nat) (s : string) : string :=
  match n, s with
  | S k, String c s' => String c (take k s')
  | _, _ => ""
  end.

Fixpoint str_filter (p : ascii -> bool) (s : string) : string :=
  match s with
  | "" => ""
  | String c s' => if p c then String c (str_filter p s') else str_filter p s'
  end.

Fixpoint str_map (f : ascii -> ascii) (s : string) : string :=
  match s with
  | "" => ""
  | String c s' => String (f c) (str_map f s')
  end.

Fixpoint str_forallb (p : ascii -> bool) (s : string) : bool :=
  match s with
  | "" => true
  | String c s' => p c && str_forallb p s'
  end.

(** Prefix removal: [Some rest] when [s] starts with [p]. *)
Fixpoint strip_prefix (p s : string) : option string :=
  match p with
  | "" => Some s
  | String a p' =>
      match s with
      | "" => None
      | String b s' => if Ascii.eqb a b then strip_prefix p' s' else None
      end
  end.

(** Character classes.  [is_space] is [str.isspace] (also [\s] of [re] on a
    [str] pattern), [is_word] is [\w] and [is_digit] is [\d], each on the
    code points below 256. *)
Definition code (c : ascii) : N := N_of_ascii c.

Definition between (lo hi : N) (c : ascii) : bool :=
  (lo <=? code c)%N && (code c <=? hi)%N.

Definition is_space (c : ascii) : bool :=
  between 9 13 c || between 28 32 c || (code c =? 133)%N || (code c =? 160)%N.

Definition is_digit (c : ascii) : bool := between 48 57 c.
Definition is_upper (c : ascii) : bool := between 65 90 c.
Definition is_lower (c : ascii) : bool := between 97 122 c.

Definition is_alnum_ascii (c : ascii) : bool :=
  is_lower c || is_upper c || is_digit c.

Definition is_latin1_alnum (c : ascii) : bool :=
  (code c =? 170)%N || (code c =? 178)%N || (code c =? 179)%N ||
  (code c =? 181)%N || (code c =? 185)%N || (code c =? 186)%N ||
  between 188 190 c || between 192 214 c || between 216 246 c ||
  between 248 255 c.

Definition is_word (c : ascii) : bool :=
  is_alnum_ascii c || Ascii.eqb c "_"%char || is_latin1_alnum c.

Fixpoint lstrip (s : string) : string :=
  match s with
  | "" => ""
  | String c s' => if is_space c then lstrip s' else s
  end.

Fixpoint rstrip (s : string) : string :=
  match s with
  | "" => ""
  | String c s' =>
      match rstrip s' with
      | "" => if is_space c then "" else String c ""
      | r => String c r
      end
  end.

(** [s.strip()] *)
Definition strip (s : string) : string := rstrip (lstrip s).

(** [s.split()]: the maximal runs of non-whitespace characters; [cur] is the
    run being read. *)
Fixpoint split_ws_from (cur s : string) : list string :=
  match s with
  | "" => match cur with "" => [] | _ => [cur] end
  | String c s' =>
      if is_space c
      then (match cur with "" => [] | _ => [cur] end ++ split_ws_from "" s')%list
      else split_ws_from (cur ++ String c "") s'
  end.

Definition split_ws (s : string) : list string := split_ws_from "" s.

(** The longest prefix of characters satisfying [p], and what follows it. *)
Fixpoint span (p : ascii -> bool) (s : string) : string * string :=
  match s with
  | "" => ("", "")
  | String c s' =>
      if p c then let (a, b) := span p s' in (String c a, b) else ("", s)
  end.

(** What [[^\n]*] matches at the start of [s]. *)
Definition line_prefix (s : string) : string :=
  fst (span (fun c => negb (Ascii.eqb c nl)) s).

Definition is_empty (s : string) : bool :=
  match s with "" => true | _ => false end.

Fixpoint drop (n : nat) (s : string) : string :=
  match n, s with
  | S k, String _ s' => drop k s'
  | _, _ => s
  end.

(** Truth value of an optional text: [None] and the empty text are false. *)
Definition truthy (r : option string) : bool :=
  match r with
  | Some (String _ _) => true
  | _ => false
  end.

(** [a or b] *)
Definition or_else (a b : option string) : option string :=
  if truthy a then a else b.

(** [f"{n:02d}"]: the decimal digits, with a zero in front of a single
    digit; a negative number has its sign and digits, which fill the width. *)
Definition format_02d (n : Z) : string :=
  let d := NilZero.string_of_int (Z.to_int n) in
  if (String.length d <? 2)%nat then "0" ++ d else d.

End Py.

Import Py.

(** ** [difflib.SequenceMatcher(None, a, b).ratio()]

    After [difflib.py] of CPython, with [isjunk = None] and [autojunk = True]
    as the scripts call it.  The float [2.0 * matches / length] is the exact
    fraction. *)

Module Difflib.

(** The elements [__chain_b] deletes from [b2j] as popular: with 200 items
    or more in [b], those that occur more than [n // 100 + 1] times. *)
Definition populars (b : list ascii) : list ascii :=
  if (200 <=? List.length b)%nat then
    filter (fun c => (List.length b / 100 + 1 <?
                      List.length (filter (Ascii.eqb c) b))%nat)
           (nodup ascii_dec b)
  else [].

Definition in_b2j (pops : list ascii) (c : ascii) : bool :=
  negb (existsb (Ascii.eqb c) pops).

(** One turn of the loop over [i] in [find_longest_match]: the row
    [newj2len] as a list indexed by [j] (0 where the dictionary has no key),
    from the row [j2len] of the turn before.  [diag] is [j2len.get(j-1, 0)]. *)
Fixpoint scan_row (pops : list ascii) (ai : ascii) (i blo bhi j : nat)
    (bs : list ascii) (j2len : list nat) (diag : nat) (best : nat * nat * nat)
  : list nat * (nat * nat * nat) :=
  match bs with
  | [] => ([], best)
  | bj :: bs' =>
      let hit := Ascii.eqb ai bj && in_b2j pops bj &&
                 (blo <=? j)%nat && (j <? bhi)%nat in
      let k := if hit then S diag else 0%nat in
      let best' :=
        if hit && (snd best <? k)%nat
        then (i + 1 - k, j + 1 - k, k)%nat else best in
      let (row, best'') :=
        scan_row pops ai i blo bhi (S j) bs' (tl j2len) (hd 0%nat j2len) best' in
      (k :: row, best'')
  end.

(** The loop over [i in range(alo, ahi)]; [items] is [a[i:ahi]]. *)
Fixpoint scan_rows (pops : list ascii) (b : list ascii) (blo bhi i : nat)
    (items : list ascii) (j2len : list nat) (best : nat * nat * nat)
  : nat * nat * nat :=
  match items with
  | [] => best
  | ai :: items' =>
      let (row, best') := scan_row pops ai i blo bhi 0 b j2len 0 best in
      scan_rows pops b blo bhi (S i) items' row best'
  end.

Definition same_item (a b : list ascii) (i j : nat) : bool :=
  match nth_error a i, nth_error b j with
  | Some x, Some y => Ascii.eqb x y
  | _, _ => false
  end.

(** The two loops that extend the best match; no item is junk. *)
Fixpoint extend_left (fuel : nat) (a b : list ascii) (alo blo : nat)
    (best : nat * nat * nat) : nat * nat * nat :=
  match fuel with
  | O => best
  | S fuel' =>
      let '(besti, bestj, bestsize) := best in
      if (alo <? besti)%nat && (blo <? bestj)%nat &&
         same_item a b (besti - 1) (bestj - 1)
      then extend_left fuel' a b alo blo
                       (besti - 1, bestj - 1, bestsize + 1)%nat
      else best
  end.

Fixpoint extend_right (fuel : nat) (a b : list ascii) (ahi bhi : nat)
    (best : nat * nat * nat) : nat * nat * nat :=
  match fuel with
  | O => best
  | S fuel' =>
      let '(besti, bestj, bestsize) := best in
      if (besti + bestsize <? ahi)%nat && (bestj + bestsize <? bhi)%nat &&
         same_item a b (besti + bestsize) (bestj + bestsize)
      then extend_right fuel' a b ahi bhi (besti, bestj, bestsize + 1)%nat
      else best
  end.

Definition find_longest_match (a b : list ascii) (alo ahi blo bhi : nat)
  : nat * nat * nat :=
  let pops := populars b in
  let best :=
    scan_rows pops b blo bhi alo (firstn (ahi - alo) (skipn alo a)) []
              (alo, blo, 0%nat) in
  extend_right (List.length a) a b ahi bhi
    (extend_left (List.length a) a b alo blo best).

(** The sum of the sizes of the blocks [get_matching_blocks] collects for
    the part [(alo, ahi, blo, bhi)] and the parts it queues from it.  Each
    queued part is a strictly shorter part of [a], so [fuel] above the
    length of [a] is never used up. *)
Fixpoint matches (fuel : nat) (a b : list ascii) (alo ahi blo bhi : nat) : nat :=
  match fuel with
  | O => 0
  | S fuel' =>
      let '(i, j, k) := find_longest_match a b alo ahi blo bhi in
      if (k =? 0)%nat then 0%nat
      else
        (k +
         (if (alo <? i) && (blo <? j) then matches fuel' a b alo i blo j else 0) +
         (if (i + k <? ahi) && (j + k <? bhi)
          then matches fuel' a b (i + k) ahi (j + k) bhi else 0))%nat
  end.

Definition matched (a b : string) : nat :=
  let la := list_ascii_of_string a in
  let lb := list_ascii_of_string b in
  matches (S (List.length la)) la lb 0 (List.length la) 0 (List.length lb).

Definition ratio (a b : string) : Q :=
  let length := (String.length a + String.length b)%nat in
  match length with
  | O => 1%Q
  | S _ => Qmake (2 * Z.of_nat (matched a b)) (Pos.of_nat length)
  end.

End Difflib.

(** A line as [read_lines] returns it holds no newline. *)
Definition no_newline (l : string) : bool :=
  str_forallb (fun c => negb (Ascii.eqb c nl)) l.

(** ** [analyze_all_rpg_usecases.py] *)

Module AnalyzeAll.

(** Windows that do not fit in the document are dropped. *)
Definition chunk_lines (lines : list string) (size overlap : Z)
  : result (list string) :=
  let step := (size - overlap)%Z in
  match range (len lines) step with
  | ValueError m => ValueError m
  | Ok starts =>
      Ok (map (fun i => join_nl (slice lines i (i + size)))
              (filter (fun i => (i + size <=? len lines)%Z) starts))
  end.

Definition replacements : list (string * string) :=
  [ ("## Input Validation", "## Input Type Validation Checks");
    ("## Validation Rules", "## Input Type Validation Checks");
    ("## Entities Used", "## Entities Used / Tables Used");
    ("## Tables Used", "## Entities Used / Tables Used") ].

Definition normalize_headers (text : string) : string :=
  fold_left (fun text wr => replace (fst wr) (snd wr) text) replacements text.

(** [(.*?)\n] at the start of [s]: the characters before the first newline,
    when there is one. *)
Fixpoint until_newline (s : string) : option string :=
  match s with
  | "" => None
  | String c s' =>
      if Ascii.eqb c nl then Some ""
      else option_map (String c) (until_newline s')
  end.

(** [\s*(.*?)\n] at the start of [s], returning group 1.  [\s*] is greedy:
    one more whitespace character is tried first, and given back when the
    rest then fails. *)
Fixpoint match_title_tail (s : string) : option string :=
  match s with
  | "" => None
  | String c s' =>
      if is_space c then
        match match_title_tail s' with
        | Some g => Some g
        | None => until_newline s
        end
      else until_newline s
  end.

(** [re.search(r"#\s*(.*?)\n", text)], group 1 of the leftmost match. *)
Fixpoint search_title (text : string) : option string :=
  match text with
  | "" => None
  | String c t' =>
      if Ascii.eqb c "#"%char then
        match match_title_tail t' with
        | Some g => Some g
        | None => search_title t'
        end
      else search_title t'
  end.

(** [.*?UC-[^\n]+] at the start of [s], returning the matched text. *)
Fixpoint match_id_tail (s : string) : option string :=
  let here :=
    match strip_prefix "UC-" s with
    | Some (String c r) =>
        if Ascii.eqb c nl then None
        else Some ("UC-" ++ line_prefix (String c r))
    | _ => None
    end in
  match here with
  | Some m => Some m
  | None =>
      match s with
      | "" => None
      | String c s' =>
          if Ascii.eqb c nl then None
          else option_map (String c) (match_id_tail s')
      end
  end.

(** [re.search(r"Use Case ID.*?UC-[^\n]+", text)], group 0. *)
Fixpoint search_id (text : string) : option string :=
  let here :=
    match strip_prefix "Use Case ID" text with
    | Some r => option_map (append "Use Case ID") (match_id_tail r)
    | None => None
    end in
  match here with
  | Some m => Some m
  | None =>
      match text with
      | "" => None
      | String _ t' => search_id t'
      end
  end.

(** The class [[a-zA-Z0-9\- ]] whose complement [re.sub] deletes. *)
Definition title_char (c : ascii) : bool :=
  is_alnum_ascii c || Ascii.eqb c "-"%char || Ascii.eqb c " "%char.

(** The title as it enters the file name. *)
Definition clean_title (text : string) : string :=
  let title :=
    match search_title text with
    | Some g => strip g
    | None => "Untitled"
    end in
  replace " " "-" (strip (take 75 (str_filter title_char title))).

(** A match of [search_id] starts with [Use], so [split()] is not empty and
    [[-1]] is its last item. *)
Definition use_case_id (text : string) : string :=
  match search_id text with
  | Some g => replace "UC-" "" (List.last (split_ws g) "")
  | None => "XXX"
  end.

Definition extract_title_and_id (text program : string) : string :=
  let title := clean_title text in
  "UC-AP-" ++ program ++ "-" ++ use_case_id text ++ "-" ++
  (if is_empty title then "Untitled" else title).

End AnalyzeAll.

(** ** [analyze_rpg_usecases_mistral_final.py] *)

Module MistralFinal.

(** Every window start is kept; [analyze_rpg_final_restored.py] has the same
    chunker. *)
Definition chunk_lines (lines : list string) (size overlap : Z)
  : result (list string) :=
  let step := (size - overlap)%Z in
  match range (len lines) step with
  | ValueError m => ValueError m
  | Ok starts => Ok (map (fun i => join_nl (slice lines i (i + size))) starts)
  end.

Definition replacements : list (string * string) :=
  [ ("## Input Validation", "## Input Type Validation Checks");
    ("## Validation Rules", "## Input Type Validation Checks");
    ("## Entities Used", "## Entities Used / Tables Used");
    ("## Tables Used", "## Entities Used / Tables Used") ].

Definition normalize_headers (text : string) : string :=
  fold_left (fun text wc => replace (fst wc) (snd wc) text) replacements text.

Definition checks : list string :=
  [ "## Identification"; "## Description";
    "## Input Type Validation Checks"; "## Process Steps" ].

Definition is_valid_output (text : string) : bool :=
  (2 <=? List.length (filter (fun c => contains c text) checks))%nat.

Definition FUZZY_THRESHOLD : Q := 94 # 100.

Section Dedupe.

(** [ratio r s] stands for [SequenceMatcher(None, r, s).ratio()]. *)
Variable ratio : string -> string -> Q.

Definition too_close (r s : string) : bool :=
  negb (Qle_bool (ratio r s) FUZZY_THRESHOLD).

(** One turn of the loop on the pair [(seen, unique)]. *)
Definition dedupe_step (st : list string * list string) (r : string)
  : list string * list string :=
  let (seen, unique) := st in
  if negb (existsb (too_close r) seen)
  then ((seen ++ [r])%list, (unique ++ [r])%list)
  else (seen, unique).

(** [fuzzy_dedupe]; the copies in [analyze_rpg_final_restored.py] and
    [claude-version-2.py] differ from it in the name of a local only. *)
Definition fuzzy_dedupe (results : list string) : list string :=
  snd (fold_left dedupe_step results ([], [])).

End Dedupe.

End MistralFinal.

(** ** [analyze_rpg_final_restored.py] *)

Module Restored.

Definition replacements : list (string * string) :=
  [ ("## Input Validation", "## Input Type Validation Checks");
    ("## Validation Rules", "## Input Type Validation Checks");
    ("## Tables Used", "## Entities Used / Tables Used");
    ("## Entities Used", "## Entities Used / Tables Used") ].

Definition normalize (text : string) : string :=
  fold_left (fun text kv => replace (fst kv) (snd kv) text) replacements text.

(** [\s*(.+)] at the start of [s], returning group 1: [.+] needs one
    character that is not a newline and then runs to the end of the line. *)
Fixpoint match_heading_tail (s : string) : option string :=
  let here :=
    match s with
    | "" => None
    | String c _ => if Ascii.eqb c nl then None else Some (line_prefix s)
    end in
  match s with
  | "" => None
  | String c s' =>
      if is_space c then
        match match_heading_tail s' with
        | Some g => Some g
        | None => here
        end
      else here
  end.

(** [re.search(r"^#\s*(.+)", text, re.MULTILINE)], group 1; [bol] tells
    whether [text] starts at the beginning of a line. *)
Fixpoint search_heading (bol : bool) (text : string) : option string :=
  match text with
  | "" => None
  | String c t' =>
      let here :=
        if bol && Ascii.eqb c "#"%char then match_heading_tail t' else None in
      match here with
      | Some g => Some g
      | None => search_heading (Ascii.eqb c nl) t'
      end
  end.

(** [Use Case ID\*\*:\s*UC-[A-Z]+-[A-Z]*?(\d+)] at the start of [s], group 1.
    No alternative is lost by taking each run whole: what must follow a run
    ([U], [-], a digit) is never a character of the run. *)
Definition match_uc_id (s : string) : option string :=
  match strip_prefix "Use Case ID**:" s with
  | None => None
  | Some s1 =>
      match strip_prefix "UC-" (lstrip s1) with
      | None => None
      | Some s2 =>
          let (up, s3) := span is_upper s2 in
          if is_empty up then None
          else
            match strip_prefix "-" s3 with
            | None => None
            | Some s4 =>
                let (_, s5) := span is_upper s4 in
                let (ds, _) := span is_digit s5 in
                if is_empty ds then None else Some ds
            end
      end
  end.

Fixpoint search_uc_id (text : string) : option string :=
  match match_uc_id text with
  | Some d => Some d
  | None =>
      match text with
      | "" => None
      | String _ t' => search_uc_id t'
      end
  end.

(** The class [[\w\s-]] whose complement [re.sub] deletes. *)
Definition title_char (c : ascii) : bool :=
  is_word c || is_space c || Ascii.eqb c "-"%char.

Definition title_clean (text : string) : string :=
  let title :=
    match search_heading true text with
    | Some g => strip g
    | None => "Untitled"
    end in
  take 75 (replace " " "-" (str_filter title_char title)).

Definition uc_id (text : string) : string :=
  match search_uc_id text with
  | Some d => d
  | None => "XXX"
  end.

Definition extract_title_id (text program : string) : string :=
  "UC-AP-" ++ program ++ "-" ++ uc_id text ++ "-" ++ title_clean text.

Definition is_valid (text : string) : bool :=
  forallb (fun kw => contains kw text)
          [ "## Identification"; "## Description"; "## Process Steps" ].

Definition PRIMARY_MODEL : string := "mistral:7b-instruct".
Definition FALLBACK_MODEL : string := "codellama:13b-instruct-q4_K_M".
Definition RETRIES : nat := 2.

Definition build_prompt (template chunk program : string) : string :=
  template ++ String nl (String nl
    ("You are analyzing **IBM RPG code from AP" ++ program ++
     "**. Your job is to extract high-level business logic in a structured use case format."
     ++ String nl (String nl ("[RPG CODE]" ++ String nl (chunk ++
     String nl ("[END CODE]" ++ String nl "")))))).

(** Where the main block writes a text file. *)
Inductive folder : Type := Outdir | Logdir.

(** The lists the loop of the main block fills, and the text files it
    writes, in order.  The Word documents written beside them are left out. *)
Record run_state : Type := {
  all_results : list string;
  low_conf : list string;
  files : list (folder * string * string)
}.

Section Main.

(** [ollama i model prompt a] stands for attempt [a] of the subprocess on
    chunk [i]: [None] for [TimeoutExpired], else the decoded output. *)
Variable ollama : nat -> string -> string -> nat -> option string.

Variable ratio : string -> string -> Q.
Variables template program : string.

(** The loop of [run_ollama] from attempt [a] on, with [n] attempts left. *)
Fixpoint attempts (i : nat) (model prompt : string) (a n : nat)
  : option string :=
  match n with
  | O => None
  | S n' =>
      match ollama i model prompt a with
      | Some out => Some (strip out)
      | None => attempts i model prompt (S a) n'
      end
  end.

Definition run_ollama (i : nat) (model prompt : string) : option string :=
  attempts i model prompt 0 RETRIES.

(** The body of the loop over [enumerate(chunks)]. *)
Definition step (st : run_state) (ic : nat * string) : run_state :=
  let (i, chunk) := ic in
  let prompt := build_prompt template chunk program in
  match or_else (run_ollama i PRIMARY_MODEL prompt)
                (run_ollama i FALLBACK_MODEL prompt) with
  | Some (String c r) =>
      let result := normalize (String c r) in
      if is_valid result then
        let fname := extract_title_id result program in
        {| all_results := (all_results st ++ [result])%list;
           low_conf := low_conf st;
           files := (files st ++ [(Outdir, (fname ++ ".md")%string, result)])%list |}
      else
        let fname := "low_conf_" ++ format_02d (Z.of_nat i + 1) ++ ".md" in
        {| all_results := all_results st;
           low_conf := (low_conf st ++ [result])%list;
           files := (files st ++ [(Outdir, fname, result)])%list |}
  | _ =>
      let fail := "failed_chunk_" ++ format_02d (Z.of_nat i + 1) ++ ".txt" in
      {| all_results := all_results st;
         low_conf := low_conf st;
         files := (files st ++ [(Logdir, fail, "No output from model.")])%list |}
  end.

Definition main_loop (chunks : list string) : run_state :=
  fold_left step (combine (seq 0 (List.length chunks)) chunks)
            {| all_results := []; low_conf := []; files := [] |}.


End Main.

End Restored.

(** ** [claude-version-2.py] *)

Module ClaudeVersion2.

(** [^\*\*([^*]+)\*\*] at the start of [s], group 1: the run of characters
    other than [*] is taken whole, since what must follow it is a [*]. *)
Definition match_bold_title (s : string) : option string :=
  match strip_prefix "**" s with
  | None => None
  | Some r =>
      let (t, rest) := span (fun c => negb (Ascii.eqb c "*"%char)) r in
      if is_empty t then None
      else match strip_prefix "**" rest with
           | Some _ => Some t
           | None => None
           end
  end.

(** The class [[a-zA-Z0-9\- ]]; [re.sub] deletes the runs of other
    characters. *)
Definition title_char (c : ascii) : bool :=
  is_alnum_ascii c || Ascii.eqb c "-"%char || Ascii.eqb c " "%char.

(** [re.sub(r'-+', '-', s)]: a hyphen followed by a hyphen is dropped, so
    that each run leaves one. *)
Fixpoint collapse_hyphens (s : string) : string :=
  match s with
  | "" => ""
  | String c s' =>
      if Ascii.eqb c "-"%char && String.prefix "-" s'
      then collapse_hyphens s'
      else String c (collapse_hyphens s')
  end.

Definition clean_title (text : string) : string :=
  let title :=
    match match_bold_title (strip text) with
    | Some g => strip g
    | None => "Use Case"
    end in
  collapse_hyphens (replace " " "-" (str_filter title_char title)).

Definition extract_title (text program : string) (use_case_counter : Z)
  : string :=
  let id_part := format_02d use_case_counter in
  "UC-AP-" ++ program ++ "-" ++ id_part ++ "-" ++ take 40 (clean_title text).

End ClaudeVersion2.

(** ** Notions the statements use *)

(** The window starts [0, S, 2S, ...] as a list of [n] items. *)
Definition starts (n : nat) (S : Z) : list Z :=
  map (fun k => (Z.of_nat k * S)%Z) (seq 0 n).

(** Number of windows of [W] lines that fit in [L] lines at stride [S]. *)
Definition full_count (L W S : Z) : Z :=
  if (W <=? L)%Z then ((L - W) / S + 1)%Z else 0%Z.

(** The chunk for the window that starts at line [i]. *)
Definition window (lines : list string) (W i : Z) : string :=
  join_nl (slice lines i (i + W)).

(** The lines of a chunk. *)
Definition chunk_rows (chunk : string) : list string := split_nl chunk.

(** The last [n] items of a list. *)
Definition lastn {A} (n : nat) (l : list A) : list A :=
  skipn (List.length l - n) l.
(** [l1] holds some of the items of [l2], in the order of [l2]. *)
Inductive subseq {A : Type} : list A -> list A -> Prop :=
| subseq_nil : subseq [] []
| subseq_skip x l1 l2 : subseq l1 l2 -> subseq l1 (x :: l2)
| subseq_keep x l1 l2 : subseq l1 l2 -> subseq (x :: l1) (x :: l2).

(** The ratio of [r] to each of [kept] is at most the threshold. *)
Definition far_from_all (ratio : string -> string -> Q) (r : string)
    (kept : list string) : bool :=
  forallb (fun s => Qle_bool (ratio r s) MistralFinal.FUZZY_THRESHOLD) kept.

(** Each item is far from all the items before it. *)
Inductive kept_apart (ratio : string -> string -> Q) : list string -> Prop :=
| apart_nil : kept_apart ratio []
| apart_snoc pre r :
    kept_apart ratio pre -> far_from_all ratio r pre = true ->
    kept_apart ratio (pre ++ [r])%list.

(** A ratio to try the deduplicator on: 1 on equal texts, 0 otherwise. *)
Definition same_text_ratio (a b : string) : Q :=
  if String.eqb a b then 1%Q else 0%Q.

(** Another one, which is not transitive: 1 on texts whose lengths differ by
    at most one, 0 otherwise. *)
Definition near_length_ratio (a b : string) : Q :=
  if (Nat.max (String.length a) (String.length b)
      - Nat.min (String.length a) (String.length b) <=? 1)%nat
  then 1%Q else 0%Q.

(** Two texts whose ratio depends on the order of the arguments. *)
Definition tide_text : string :=
  "aaaaaaaaaaaaaaaaaaaaaaaaaaaaaaaaaaaaaaaatide".

Definition diet_text : string :=
  "aaaaaaaaaaaaaaaaaaaaaaaaaaaaaaaaaaaaaaaadiet".

(** The line is one of the synonym headers of the table. *)
Definition is_synonym_header (line : string) : bool :=
  existsb (fun wc => String.eqb line (fst wc)) MistralFinal.replacements.

(** The line is a Markdown header. *)
Definition is_header (line : string) : bool := String.prefix "#" line.

(** A synonym header of the table occurs somewhere in the line. *)
Definition mentions_synonym (line : string) : bool :=
  existsb (fun wc => contains (fst wc) line) MistralFinal.replacements.

(** What a replacement table must satisfy for [replace] to work line by
    line: keys and values hold no newline and no key is empty. *)
Definition line_local (wc : string * string) : Prop :=
  fst wc <> "" /\ no_newline (fst wc) = true /\ no_newline (snd wc) = true.

(** The characters a file-safe name may hold: letters, digits, the hyphen
    and the space. *)
Definition safe_char (c : ascii) : bool :=
  is_alnum_ascii c || Ascii.eqb c "-"%char || Ascii.eqb c " "%char.

(** What the title of [extract_title_and_id] is made of. *)
Definition slug_char (c : ascii) : bool :=
  is_alnum_ascii c || Ascii.eqb c "-"%char.

(** What the title of [extract_title_id] is made of. *)
Definition word_slug_char (c : ascii) : bool :=
  (is_word c || is_space c || Ascii.eqb c "-"%char) &&
  negb (Ascii.eqb c " "%char).


(** The file is one of the failure notes of the log folder. *)
Definition in_logdir (f : Restored.folder * string * string) : bool :=
  match fst (fst f) with
  | Restored.Logdir => true
  | Restored.Outdir => false
  end.

(** Neither try of a model gives a text: a try that times out is followed
    by the next, and the first try that returns has only white space. *)
Definition gives_nothing
    (ollama : nat -> string -> string -> nat -> option string)
    (i : nat) (model prompt : string) : bool :=
  match ollama i model prompt 0%nat with
  | Some out => str_forallb is_space out
  | None =>
      match ollama i model prompt 1%nat with
      | Some out => str_forallb is_space out
      | None => true
      end
  end.

(** ** Chunker lemmas *)

Section ListFacts.

Context {A : Type}.

Lemma filter_none (P : A -> bool) (l : list A) :
  (forall x, In x l -> P x = false) -> filter P l = [].
Proof.
  induction l as [|a l IH]; simpl; intros H; [reflexivity|].
  rewrite (H a (or_introl eq_refl)). apply IH. intros x Hx. apply H. now right.
Qed.

Lemma filter_all (P : A -> bool) (l : list A) :
  (forall x, In x l -> P x = true) -> filter P l = l.
Proof.
  intros H. apply forallb_filter_id. apply forallb_forall. exact H.
Qed.

Lemma filter_seq_prefix (f : nat -> A) (P : A -> bool) (m n : nat) :
  n <= m ->
  (forall k, k < n -> P (f k) = true) ->
  (forall k, n <= k < m -> P (f k) = false) ->
  filter P (map f (seq 0 m)) = map f (seq 0 n).
Proof.
  intros Hnm Ht Hf.
  replace m with (n + (m - n)) by lia.
  rewrite seq_app, map_app, filter_app. simpl.
  rewrite filter_all, filter_none.
  - apply app_nil_r.
  - intros x Hx. apply in_map_iff in Hx. destruct Hx as [k [<- Hk]].
    apply in_seq in Hk. apply Hf. lia.
  - intros x Hx. apply in_map_iff in Hx. destruct Hx as [k [<- Hk]].
    apply in_seq in Hk. apply Ht. lia.
Qed.

End ListFacts.

Section WindowArithmetic.

Local Open Scope Z_scope.

Variables L W S : Z.
Hypothesis HL : 0 <= L.
Hypothesis HW : 0 < W.
Hypothesis HS : 0 < S.

Lemma range_len_nonneg : 0 <= range_len L S.
Proof.
  unfold range_len. destruct (Z.ltb_spec 0 S); [|lia].
  destruct (Z.ltb_spec 0 L); [|lia].
  assert (0 <= (L - 1) / S) by (apply Z.div_pos; lia). lia.
Qed.

Lemma range_len_spec k : 0 <= k -> (k < range_len L S <-> k * S < L).
Proof.
  intros Hk. unfold range_len. destruct (Z.ltb_spec 0 S); [|lia].
  destruct (Z.ltb_spec 0 L).
  - pose proof (Z.mul_div_le (L - 1) S HS).
    pose proof (Z.mul_succ_div_gt (L - 1) S HS).
    split; intros; nia.
  - split; intros; nia.
Qed.

Lemma full_count_nonneg : 0 <= full_count L W S.
Proof.
  unfold full_count. destruct (Z.leb_spec W L); [|lia].
  assert (0 <= (L - W) / S) by (apply Z.div_pos; lia). lia.
Qed.

Lemma full_count_spec k : 0 <= k -> (k < full_count L W S <-> k * S + W <= L).
Proof.
  intros Hk. unfold full_count. destruct (Z.leb_spec W L).
  - pose proof (Z.mul_div_le (L - W) S HS).
    pose proof (Z.mul_succ_div_gt (L - W) S HS).
    split; intros; nia.
  - split; intros; nia.
Qed.

Lemma full_count_le_range_len : full_count L W S <= range_len L S.
Proof.
  destruct (Z.le_gt_cases (full_count L W S) 0) as [H0|H0].
  - pose proof range_len_nonneg. lia.
  - assert (Hk : 0 <= full_count L W S - 1) by lia.
    pose proof (proj1 (full_count_spec _ Hk) ltac:(lia)).
    pose proof (proj2 (range_len_spec _ Hk) ltac:(nia)). lia.
Qed.

End WindowArithmetic.

Section SliceFacts.

Context {A : Type}.
Implicit Types l : list A.

Lemma slice_nonneg l (i W : Z) :
  (0 <= i)%Z -> (0 <= i + W)%Z ->
  slice l i (i + W) =
  firstn (Z.to_nat (Z.min (i + W) (len l) - Z.min i (len l)))
         (skipn (Z.to_nat (Z.min i (len l))) l).
Proof.
  intros Hi HW. unfold slice, clamp_index.
  destruct (Z.ltb_spec i 0); [lia|].
  destruct (Z.ltb_spec (i + W) 0); [lia|]. reflexivity.
Qed.

Lemma slice_fit l (i W : Z) :
  (0 <= i)%Z -> (0 <= W)%Z -> (i + W <= len l)%Z ->
  slice l i (i + W) = firstn (Z.to_nat W) (skipn (Z.to_nat i) l).
Proof.
  intros Hi HW Hfit. rewrite slice_nonneg by lia.
  rewrite !Z.min_l by lia. f_equal. lia.
Qed.

Lemma slice_short l (i W : Z) :
  (0 <= i)%Z -> (len l <= i + W)%Z ->
  slice l i (i + W) = skipn (Z.to_nat i) l.
Proof.
  intros Hi Hshort. unfold len in Hshort.
  destruct (Z.le_gt_cases i (len l)) as [Hle|Hgt]; unfold len in *.
  - rewrite slice_nonneg by lia. unfold len.
    rewrite Z.min_r, Z.min_l by lia.
    apply firstn_all2. rewrite length_skipn. lia.
  - rewrite slice_nonneg by lia. unfold len.
    rewrite !Z.min_r by lia. rewrite Z.sub_diag. simpl.
    symmetry. apply skipn_all2. lia.
Qed.

Lemma slice_length l (i W : Z) :
  (0 <= i)%Z -> (0 <= W)%Z ->
  len (slice l i (i + W)) = (Z.min (i + W) (len l) - Z.min i (len l))%Z.
Proof.
  intros Hi HW. rewrite slice_nonneg by lia. unfold len.
  rewrite length_firstn, length_skipn. lia.
Qed.

Lemma In_firstn n l x : In x (firstn n l) -> In x l.
Proof.
  intros H. rewrite <- (firstn_skipn n l). apply in_or_app. now left.
Qed.

Lemma In_skipn n l x : In x (skipn n l) -> In x l.
Proof.
  intros H. rewrite <- (firstn_skipn n l). apply in_or_app. now right.
Qed.

Lemma slice_Forall (P : A -> Prop) l (lo hi : Z) :
  Forall P l -> Forall P (slice l lo hi).
Proof.
  intros H. unfold slice. rewrite Forall_forall in *. intros x Hx.
  apply H. eapply In_skipn, In_firstn, Hx.
Qed.

End SliceFacts.

(** [split('\n')] undoes ['\n'.join] on lines that hold no newline. *)

Lemma split_nl_line l : no_newline l = true -> split_nl l = [l].
Proof.
  induction l as [|c l IH]; simpl; intros H; [reflexivity|].
  apply andb_prop in H. destruct H as [Hc Hl].
  apply negb_true_iff in Hc. rewrite Hc, (IH Hl). reflexivity.
Qed.

Lemma split_nl_cons l rest :
  no_newline l = true ->
  split_nl (l ++ String nl rest) = l :: split_nl rest.
Proof.
  induction l as [|c l IH]; simpl; intros H.
  - reflexivity.
  - apply andb_prop in H. destruct H as [Hc Hl].
    apply negb_true_iff in Hc. rewrite Hc, (IH Hl). reflexivity.
Qed.

Lemma split_join (ls : list string) :
  ls <> [] -> Forall (fun l => no_newline l = true) ls ->
  split_nl (join_nl ls) = ls.
Proof.
  induction ls as [|l ls IH]; intros Hne Hall; [congruence|].
  inversion Hall as [|? ? Hl Hls]; subst.
  destruct ls as [|l' ls].
  - simpl. now apply split_nl_line.
  - change (join_nl (l :: l' :: ls))
      with (l ++ String nl (join_nl (l' :: ls))).
    rewrite split_nl_cons by assumption.
    f_equal. apply IH; [discriminate|assumption].
Qed.

Lemma starts_length k St : List.length (starts k St) = k.
Proof. unfold starts. now rewrite length_map, length_seq. Qed.

Lemma starts_nth k St i :
  nth_error (starts k St) i =
  if (i <? k)%nat then Some (Z.of_nat i * St)%Z else None.
Proof.
  unfold starts. rewrite nth_error_map.
  destruct (Nat.ltb_spec i k) as [Hlt|Hge].
  - rewrite nth_error_seq. destruct (Nat.ltb_spec i k); [reflexivity|lia].
  - replace (nth_error (seq 0 k) i) with (@None nat); [reflexivity|].
    symmetry. apply nth_error_None. rewrite length_seq. lia.
Qed.

(** The [i]-th chunk of a list of windows. *)
Lemma windows_nth lines W St k i c :
  nth_error (map (window lines W) (starts k St)) i = Some c ->
  (i < k)%nat /\ c = window lines W (Z.of_nat i * St).
Proof.
  rewrite nth_error_map, starts_nth.
  destruct (Nat.ltb_spec i k); simpl; intros E; [|discriminate].
  injection E as <-. split; [assumption|reflexivity].
Qed.

(** ** Both chunkers as lists of windows *)

Section Chunkers.

Variable lines : list string.
Variables W V : Z.
Hypothesis HV : (0 <= V < W)%Z.

Let L := len lines.
Let S := (W - V)%Z.
Let m := Z.to_nat (range_len L S).
Let n := Z.to_nat (full_count L W S).

Lemma len_nonneg : (0 <= L)%Z.
Proof. unfold L, len. lia. Qed.

Lemma range_starts : range L S = Ok (starts m S).
Proof.
  unfold range. destruct (Z.eqb_spec S 0) as [E|_]; [unfold S in E; lia|].
  reflexivity.
Qed.

Lemma permissive_windows :
  MistralFinal.chunk_lines lines W V = Ok (map (window lines W) (starts m S)).
Proof.
  unfold MistralFinal.chunk_lines. fold L S. rewrite range_starts. reflexivity.
Qed.

Lemma stride_pos : (0 < S)%Z.
Proof. unfold S. lia. Qed.

Lemma full_le_all : n <= m.
Proof.
  unfold n, m. pose proof stride_pos as HS.
  pose proof (full_count_le_range_len L W S ltac:(lia) HS).
  pose proof (full_count_nonneg L W S HS). lia.
Qed.

Lemma start_fits (k : nat) : k < n -> (Z.of_nat k * S + W <= L)%Z.
Proof.
  intros Hk. pose proof (full_count_nonneg L W S stride_pos).
  apply (full_count_spec L W S stride_pos); unfold n in Hk; lia.
Qed.

Lemma start_overflows (k : nat) : n <= k -> (L < Z.of_nat k * S + W)%Z.
Proof.
  intros Hk.
  destruct (Z.le_gt_cases (Z.of_nat k * S + W) L) as [Hfit|]; [|lia].
  apply (full_count_spec L W S stride_pos) in Hfit; [|lia].
  unfold n in Hk. lia.
Qed.

Lemma start_inside (k : nat) : k < m -> (Z.of_nat k * S < L)%Z.
Proof.
  intros Hk. pose proof (range_len_nonneg L S stride_pos).
  apply (range_len_spec L S stride_pos); unfold m in Hk; lia.
Qed.

Lemma strict_windows :
  AnalyzeAll.chunk_lines lines W V = Ok (map (window lines W) (starts n S)).
Proof.
  unfold AnalyzeAll.chunk_lines. fold L S. rewrite range_starts.
  f_equal. unfold starts.
  rewrite (filter_seq_prefix (fun k => (Z.of_nat k * S)%Z) _ m n).
  - reflexivity.
  - apply full_le_all.
  - intros k Hk. apply Z.leb_le. now apply start_fits.
  - intros k Hk. apply Z.leb_gt. apply start_overflows. lia.
Qed.

Lemma starts_split :
  starts m S =
  (starts n S ++ map (fun k => (Z.of_nat k * S)%Z) (seq n (m - n)))%list.
Proof.
  unfold starts. pose proof full_le_all.
  replace m with (n + (m - n)) at 1 by lia.
  now rewrite seq_app, map_app.
Qed.

Hypothesis Hlines : Forall (fun l => no_newline l = true) lines.

(** A window that starts inside the document has its slice for rows. *)
Lemma window_rows (i : Z) :
  (0 <= i < L)%Z -> chunk_rows (window lines W i) = slice lines i (i + W).
Proof.
  intros Hi. unfold chunk_rows, window. apply split_join.
  - intros E. pose proof (slice_length lines i W) as Hlen.
    rewrite E in Hlen. unfold len at 1 in Hlen. simpl in Hlen.
    fold L in Hlen. lia.
  - now apply slice_Forall.
Qed.

Lemma full_window_rows (k : nat) :
  k < n ->
  chunk_rows (window lines W (Z.of_nat k * S)) =
  firstn (Z.to_nat W) (skipn (Z.to_nat (Z.of_nat k * S)) lines).
Proof.
  intros Hk. pose proof (start_fits k Hk) as Hfit.
  assert (0 <= Z.of_nat k * S)%Z by (unfold S; nia).
  rewrite window_rows by lia.
  apply slice_fit; [lia|lia|exact Hfit].
Qed.

Lemma full_window_size (k : nat) :
  k < n -> len (chunk_rows (window lines W (Z.of_nat k * S))) = W.
Proof.
  intros Hk. pose proof (start_fits k Hk) as Hfit.
  assert (0 <= Z.of_nat k * S)%Z by (unfold S; nia).
  rewrite window_rows by lia. rewrite slice_length by lia.
  fold L. lia.
Qed.

Lemma short_window_size (k : nat) :
  n <= k < m ->
  (0 < len (chunk_rows (window lines W (Z.of_nat k * S))) < W)%Z.
Proof.
  intros [Hn Hm]. pose proof (start_overflows k Hn). pose proof (start_inside k Hm).
  assert (0 <= Z.of_nat k * S)%Z by (unfold S; nia).
  rewrite window_rows by lia. rewrite slice_length by lia.
  fold L. lia.
Qed.

End Chunkers.

(** ** The strict chunker *)

(** C1. With [W > 0] and [0 <= V < W], the strict chunker returns exactly the
    chunks of the windows [[i*S, i*S + W)], [S = W - V], for
    [i = 0 .. floor((L - W) / S)]: [floor((L - W) / S) + 1] chunks when
    [L >= W] and none when [L < W].  A 300-line document with [W = 90] and
    [V = 30] gives the four chunks of lines [0:90], [60:150], [120:210] and
    [180:270]; the window that starts at line 240 is not among them. *)
Theorem strict_chunks_are_the_fitting_windows (lines : list string) (W V : Z) :
  (0 < W)%Z -> (0 <= V < W)%Z ->
  exists chunks,
    AnalyzeAll.chunk_lines lines W V = Ok chunks /\
    chunks =
      map (fun i => join_nl (slice lines (Z.of_nat i * (W - V))
                                         (Z.of_nat i * (W - V) + W)))
          (seq 0 (List.length chunks)) /\
    (forall i, (i < List.length chunks)%nat ->
       slice lines (Z.of_nat i * (W - V)) (Z.of_nat i * (W - V) + W) =
         firstn (Z.to_nat W) (skipn (Z.to_nat (Z.of_nat i * (W - V))) lines) /\
       len (slice lines (Z.of_nat i * (W - V)) (Z.of_nat i * (W - V) + W)) = W) /\
    ((W <= len lines)%Z -> len chunks = ((len lines - W) / (W - V) + 1)%Z) /\
    ((len lines < W)%Z -> chunks = []) /\
    (len lines = 300%Z -> W = 90%Z -> V = 30%Z ->
       chunks = [ join_nl (slice lines 0 90); join_nl (slice lines 60 150);
                  join_nl (slice lines 120 210); join_nl (slice lines 180 270) ]).
Proof.
  intros HW HV.
  pose proof (full_count_nonneg (len lines) W (W - V) ltac:(lia)) as Hn0.
  set (n := Z.to_nat (full_count (len lines) W (W - V))).
  assert (Hlen : List.length (map (window lines W) (starts n (W - V))) = n)
    by now rewrite length_map, starts_length.
  exists (map (window lines W) (starts n (W - V))).
  split; [apply (strict_windows lines W V HV)|].
  split; [rewrite Hlen; unfold starts; now rewrite map_map|].
  split.
  { rewrite Hlen. intros i Hi.
    pose proof (start_fits lines W V HV i Hi) as Hfit.
    assert (0 <= Z.of_nat i * (W - V))%Z by nia.
    split; [apply slice_fit; lia|].
    rewrite slice_length by lia. lia. }
  split.
  { intros HWL. unfold len at 1. rewrite Hlen. unfold n, full_count in *.
    destruct (Z.leb_spec W (len lines)); lia. }
  split.
  { intros HLW. unfold n, full_count.
    destruct (Z.leb_spec W (len lines)); [lia|reflexivity]. }
  intros HL -> ->. unfold n, full_count. rewrite HL. reflexivity.
Qed.

Lemma strict_chunks_are_the_fitting_windows_witness :
  exists chunks,
    AnalyzeAll.chunk_lines ["a"; "b"; "c"; "d"; "e"; "f"] 3 1 = Ok chunks /\
    chunks = ["a" ++ String nl "b" ++ String nl "c";
              "c" ++ String nl "d" ++ String nl "e"].
Proof.
  destruct (strict_chunks_are_the_fitting_windows
              ["a"; "b"; "c"; "d"; "e"; "f"] 3 1 ltac:(lia) ltac:(lia))
    as [chunks [Hrun _]].
  exists chunks. split; [exact Hrun|].
  vm_compute in Hrun. injection Hrun as <-. reflexivity.
Defined.

(** C4. When [L >= 2W - V] and [0 <= V < W], the strict chunker returns at
    least two chunks, and any two adjacent chunks share exactly [V] lines: the
    last [V] lines of chunk [i] are the first [V] lines of chunk [i + 1]. *)
Theorem adjacent_strict_chunks_share_overlap (lines : list string) (W V : Z) :
  Forall (fun l => no_newline l = true) lines ->
  (0 <= V < W)%Z -> (2 * W - V <= len lines)%Z ->
  exists chunks,
    AnalyzeAll.chunk_lines lines W V = Ok chunks /\
    (2 <= List.length chunks)%nat /\
    forall i c1 c2,
      nth_error chunks i = Some c1 ->
      nth_error chunks (i + 1) = Some c2 ->
      chunk_rows c1 =
        slice lines (Z.of_nat i * (W - V)) (Z.of_nat i * (W - V) + W) /\
      chunk_rows c2 =
        slice lines (Z.of_nat (i + 1) * (W - V))
                    (Z.of_nat (i + 1) * (W - V) + W) /\
      lastn (Z.to_nat V) (chunk_rows c1) = firstn (Z.to_nat V) (chunk_rows c2) /\
      len (firstn (Z.to_nat V) (chunk_rows c2)) = V.
Proof.
  intros Hlines HV HL.
  pose proof (full_count_nonneg (len lines) W (W - V) ltac:(lia)) as Hn0.
  set (n := Z.to_nat (full_count (len lines) W (W - V))).
  exists (map (window lines W) (starts n (W - V))).
  split; [apply (strict_windows lines W V HV)|].
  split.
  { rewrite length_map, starts_length.
    assert (1 < full_count (len lines) W (W - V))%Z
      by (apply full_count_spec; lia).
    unfold n. lia. }
  intros i c1 c2 H1 H2.
  apply windows_nth in H1. destruct H1 as [Hi ->].
  apply windows_nth in H2. destruct H2 as [Hi' ->].
  pose proof (start_fits lines W V HV i Hi) as Hfit.
  pose proof (start_fits lines W V HV (i + 1) Hi') as Hfit'.
  assert (Ha : (0 <= Z.of_nat i * (W - V))%Z) by nia.
  assert (Hb : (0 <= Z.of_nat (i + 1) * (W - V))%Z) by nia.
  split; [apply (window_rows lines W V HV Hlines); lia|].
  split; [apply (window_rows lines W V HV Hlines); lia|].
  rewrite (full_window_rows lines W V HV Hlines i Hi).
  rewrite (full_window_rows lines W V HV Hlines (i + 1) Hi').
  set (a := Z.to_nat (Z.of_nat i * (W - V))).
  assert (Eb : Z.to_nat (Z.of_nat (i + 1) * (W - V)) =
               (Z.to_nat W - Z.to_nat V + a)%nat) by (unfold a; lia).
  rewrite Eb. unfold len in Hfit, Hfit'.
  split.
  - unfold lastn. rewrite length_firstn, length_skipn.
    replace (Nat.min (Z.to_nat W) (List.length lines - a)) with (Z.to_nat W)
      by (unfold a; lia).
    rewrite skipn_firstn_comm, skipn_skipn, firstn_firstn.
    f_equal; lia.
  - unfold len. rewrite !length_firstn, length_skipn. unfold a. lia.
Qed.

Lemma adjacent_strict_chunks_share_overlap_witness :
  exists chunks,
    AnalyzeAll.chunk_lines ["a"; "b"; "c"; "d"; "e"; "f"; "g"] 3 1 = Ok chunks /\
    (2 <= List.length chunks)%nat.
Proof.
  destruct (adjacent_strict_chunks_share_overlap
              ["a"; "b"; "c"; "d"; "e"; "f"; "g"] 3 1) as [chunks [Hrun [Hlen _]]].
  - repeat constructor.
  - lia.
  - vm_compute. discriminate.
  - exists chunks. split; assumption.
Defined.

(** ** The permissive chunker *)

Lemma range_len_ceil (L St : Z) :
  (0 <= L)%Z -> (0 < St)%Z -> range_len L St = ((L + St - 1) / St)%Z.
Proof.
  intros HL HS. unfold range_len.
  destruct (Z.ltb_spec 0 St); [|lia].
  destruct (Z.ltb_spec 0 L) as [Hpos|Hzero].
  - replace (L + St - 1)%Z with (L - 1 + 1 * St)%Z by lia.
    rewrite Z.div_add by lia. lia.
  - replace L with 0%Z by lia. symmetry. apply Z.div_small. lia.
Qed.

(** C5, as the code has it.  With [0 <= V < W] the permissive chunker returns
    one chunk per window start [i * S] below [L], [ceil(L / S)] chunks, and
    chunk [i] holds the [min(W, L - i * S)] lines from line [i * S] on.  The
    chunks of the windows that fit come first and hold exactly [W] lines;
    every chunk after them, one per window start in [(L - W, L)], holds at
    least one line and fewer than [W], and there can be several of them.
    If [V = 0] at most one chunk is short. *)
Theorem permissive_full_chunks_form_a_prefix (lines : list string) (W V : Z) :
  Forall (fun l => no_newline l = true) lines ->
  (0 <= V < W)%Z ->
  exists chunks,
    MistralFinal.chunk_lines lines W V = Ok chunks /\
    let n := Z.to_nat (full_count (len lines) W (W - V)) in
    (n <= List.length chunks)%nat /\
    (forall i c, nth_error chunks i = Some c ->
       ((i < n)%nat -> len (chunk_rows c) = W) /\
       ((n <= i)%nat -> (0 < len (chunk_rows c) < W)%Z)) /\
    (V = 0%Z -> (List.length chunks <= n + 1)%nat) /\
    len chunks = ((len lines + (W - V) - 1) / (W - V))%Z /\
    (forall i, (i < List.length chunks)%nat <->
               (Z.of_nat i * (W - V) < len lines)%Z) /\
    (forall i, (n <= i < List.length chunks)%nat <->
               (len lines - W < Z.of_nat i * (W - V) < len lines)%Z) /\
    (forall i c, nth_error chunks i = Some c ->
       chunk_rows c =
         slice lines (Z.of_nat i * (W - V)) (Z.of_nat i * (W - V) + W) /\
       len (chunk_rows c) = Z.min W (len lines - Z.of_nat i * (W - V))).
Proof.
  intros Hlines HV.
  assert (HS : (0 < W - V)%Z) by lia.
  assert (HL : (0 <= len lines)%Z) by (unfold len; lia).
  pose proof (range_len_nonneg (len lines) (W - V) HS) as Hm0.
  pose proof (full_count_nonneg (len lines) W (W - V) HS) as Hn0.
  set (m := Z.to_nat (range_len (len lines) (W - V))).
  exists (map (window lines W) (starts m (W - V))).
  split; [apply (permissive_windows lines W V HV)|].
  intros n. rewrite length_map, starts_length.
  assert (Hstart : forall i, (i < m)%nat <-> (Z.of_nat i * (W - V) < len lines)%Z).
  { intros i. unfold m.
    rewrite <- (range_len_spec (len lines) (W - V) HS (Z.of_nat i)) by lia. lia. }
  assert (Hfull : forall i, (i < n)%nat <->
                            (Z.of_nat i * (W - V) + W <= len lines)%Z).
  { intros i. unfold n.
    rewrite <- (full_count_spec (len lines) W (W - V) HS (Z.of_nat i)) by lia.
    lia. }
  split; [apply (full_le_all lines W V HV)|].
  split.
  { intros i c Hc. apply windows_nth in Hc. destruct Hc as [Hi ->].
    split; intros Hn.
    - now apply (full_window_size lines W V HV Hlines).
    - apply (short_window_size lines W V HV Hlines). fold m. fold n. lia. }
  split.
  { intros ->. destruct (Nat.le_gt_cases m (n + 1)) as [|Hgt]; [assumption|].
    exfalso.
    assert (Hin : (m - 1 < m)%nat) by lia.
    apply (start_inside lines W 0 HV) in Hin.
    pose proof (start_overflows lines W 0 HV (m - 2) ltac:(fold n; lia)) as Hov.
    rewrite Z.sub_0_r in *. nia. }
  split.
  { unfold len at 1. rewrite length_map, starts_length.
    unfold m. rewrite Z2Nat.id by assumption. now apply range_len_ceil. }
  split; [exact Hstart|].
  split.
  { intros i. rewrite Hstart. split.
    - intros [Hn Hi]. split; [|exact Hi].
      destruct (Z.le_gt_cases (Z.of_nat i * (W - V) + W) (len lines)) as [Hfit|];
        [apply Hfull in Hfit; lia|lia].
    - intros [Hlo Hhi]. split; [|exact Hhi].
      destruct (Nat.le_gt_cases n i) as [|Hlt]; [assumption|].
      apply Hfull in Hlt. lia. }
  intros i c Hc. apply windows_nth in Hc. destruct Hc as [Hi ->].
  apply Hstart in Hi.
  assert (H0 : (0 <= Z.of_nat i * (W - V))%Z) by nia.
  rewrite (window_rows lines W V HV Hlines) by lia.
  split; [reflexivity|]. rewrite slice_length by lia. lia.
Qed.

Lemma permissive_full_chunks_form_a_prefix_witness :
  exists chunks,
    MistralFinal.chunk_lines ["a"; "b"; "c"; "d"; "e"] 3 2 = Ok chunks /\
    (3 <= List.length chunks)%nat /\
    len chunks = ((len ["a"; "b"; "c"; "d"; "e"] + (3 - 2) - 1) / (3 - 2))%Z.
Proof.
  destruct (permissive_full_chunks_form_a_prefix ["a"; "b"; "c"; "d"; "e"] 3 2)
    as [chunks [Hrun [Hlen [_ [_ [Hcount _]]]]]].
  - repeat constructor.
  - lia.
  - exists chunks. split; [exact Hrun|]. split; [exact Hlen|exact Hcount].
Defined.

(** C5, as stated, fails: of the three chunks of a 130-line document with
    [W = 90] and [V = 30], the second is not the last and holds 70 lines. *)
Lemma permissive_second_chunk_is_short :
  exists chunks c,
    MistralFinal.chunk_lines (repeat "x" 130) 90 30 = Ok chunks /\
    List.length chunks = 3%nat /\
    nth_error chunks 1 = Some c /\
    List.length (chunk_rows c) = 70%nat.
Proof.
  eexists. eexists. split; [vm_compute; reflexivity|].
  split; [reflexivity|]. split; [reflexivity|]. vm_compute. reflexivity.
Qed.

(** C10. With [0 <= V < W] the strict output is the prefix of the permissive
    output made of its [W]-line chunks: below the strict length both lists
    hold the same chunk, of [W] lines, and every later permissive chunk is
    shorter than [W]. *)
Theorem strict_is_the_full_prefix_of_permissive (lines : list string) (W V : Z) :
  Forall (fun l => no_newline l = true) lines ->
  (0 <= V < W)%Z ->
  exists strict permissive,
    AnalyzeAll.chunk_lines lines W V = Ok strict /\
    MistralFinal.chunk_lines lines W V = Ok permissive /\
    strict = firstn (List.length strict) permissive /\
    forall i c, nth_error permissive i = Some c ->
      ((i < List.length strict)%nat ->
         nth_error strict i = Some c /\ len (chunk_rows c) = W) /\
      ((List.length strict <= i)%nat ->
         nth_error strict i = None /\ (0 < len (chunk_rows c) < W)%Z).
Proof.
  intros Hlines HV.
  set (m := Z.to_nat (range_len (len lines) (W - V))).
  set (n := Z.to_nat (full_count (len lines) W (W - V))).
  exists (map (window lines W) (starts n (W - V))),
         (map (window lines W) (starts m (W - V))).
  split; [apply (strict_windows lines W V HV)|].
  split; [apply (permissive_windows lines W V HV)|].
  rewrite length_map, starts_length.
  split.
  - fold m. unfold m at 1. rewrite (starts_split lines W V HV). fold n m.
    rewrite map_app, firstn_app, length_map, starts_length, Nat.sub_diag.
    rewrite firstn_all2 by (rewrite length_map, starts_length; lia).
    simpl. now rewrite app_nil_r.
  - intros i c Hc. apply windows_nth in Hc. destruct Hc as [Hi ->].
    split; intros Hn.
    + split; [|now apply (full_window_size lines W V HV Hlines)].
      rewrite nth_error_map, starts_nth.
      destruct (Nat.ltb_spec i n); [reflexivity|lia].
    + split; [|apply (short_window_size lines W V HV Hlines); fold m n; lia].
      rewrite nth_error_map, starts_nth.
      destruct (Nat.ltb_spec i n); [lia|reflexivity].
Qed.

Lemma strict_is_the_full_prefix_of_permissive_witness :
  exists strict permissive,
    AnalyzeAll.chunk_lines ["a"; "b"; "c"; "d"; "e"] 3 2 = Ok strict /\
    MistralFinal.chunk_lines ["a"; "b"; "c"; "d"; "e"] 3 2 = Ok permissive /\
    strict = firstn (List.length strict) permissive.
Proof.
  destruct (strict_is_the_full_prefix_of_permissive ["a"; "b"; "c"; "d"; "e"] 3 2)
    as [strict [permissive [Hs [Hp [Hpre _]]]]].
  - repeat constructor.
  - lia.
  - exists strict, permissive. repeat split; assumption.
Defined.

(** ** A stride that is not positive *)

(** C6, as the code has it.  With [W = V] the stride is zero and both
    chunkers raise the [ValueError] of [range] before any chunk is built;
    with [W < V] the stride is negative, [range] is empty and both return an
    empty list of chunks without an error. *)
Theorem non_positive_stride (lines : list string) (W V : Z) :
  (W <= V)%Z ->
  (W = V ->
     MistralFinal.chunk_lines lines W V =
       ValueError "range() arg 3 must not be zero" /\
     AnalyzeAll.chunk_lines lines W V =
       ValueError "range() arg 3 must not be zero") /\
  ((W < V)%Z ->
     MistralFinal.chunk_lines lines W V = Ok [] /\
     AnalyzeAll.chunk_lines lines W V = Ok []).
Proof.
  intros _. split.
  - intros ->. unfold MistralFinal.chunk_lines, AnalyzeAll.chunk_lines, range.
    rewrite Z.sub_diag. split; reflexivity.
  - intros HWV.
    assert (E : range (len lines) (W - V) = Ok []).
    { unfold range, range_len, len.
      destruct (Z.eqb_spec (W - V) 0); [lia|].
      destruct (Z.ltb_spec 0 (W - V)); [lia|].
      destruct (Z.ltb_spec (Z.of_nat (List.length lines)) 0); [lia|].
      reflexivity. }
    unfold MistralFinal.chunk_lines, AnalyzeAll.chunk_lines.
    rewrite E. split; reflexivity.
Qed.

Lemma non_positive_stride_witness :
  MistralFinal.chunk_lines ["a"; "b"; "c"] 2 3 = Ok [] /\
  AnalyzeAll.chunk_lines ["a"; "b"; "c"] 2 3 = Ok [].
Proof.
  apply (non_positive_stride ["a"; "b"; "c"] 2 3); lia.
Defined.

(** C6, as stated, fails: with [W = 2 <= V = 3] the chunker returns an empty
    list of chunks and raises nothing. *)
Lemma negative_stride_returns_no_chunks :
  (2 <= 3)%Z /\ MistralFinal.chunk_lines ["a"; "b"; "c"] 2 3 = Ok [].
Proof. split; [lia|reflexivity]. Qed.

(** ** The fuzzy deduplicator *)

Section DedupeFacts.

Import MistralFinal.

Variable ratio : string -> string -> Q.

Lemma not_too_close r kept :
  negb (existsb (too_close ratio r) kept) = far_from_all ratio r kept.
Proof.
  unfold far_from_all, too_close.
  induction kept as [|s kept IH]; simpl; [reflexivity|].
  rewrite negb_orb, negb_involutive, IH. reflexivity.
Qed.

(** [seen] and [unique] stay equal all along the loop. *)
Lemma loop_keeps_seen_equal results u :
  fst (fold_left (dedupe_step ratio) results (u, u)) =
  snd (fold_left (dedupe_step ratio) results (u, u)).
Proof.
  revert u. induction results as [|r results IH]; intros u; simpl.
  - reflexivity.
  - destruct (negb (existsb (too_close ratio r) u)); apply IH.
Qed.

Lemma fuzzy_dedupe_snoc pre r :
  fuzzy_dedupe ratio (pre ++ [r]) =
  if far_from_all ratio r (fuzzy_dedupe ratio pre)
  then (fuzzy_dedupe ratio pre ++ [r])%list
  else fuzzy_dedupe ratio pre.
Proof.
  unfold fuzzy_dedupe. rewrite fold_left_app. simpl.
  pose proof (loop_keeps_seen_equal pre []) as E.
  destruct (fold_left (dedupe_step ratio) pre ([], [])) as [seen unique].
  simpl in *. subst seen. rewrite not_too_close.
  destruct (far_from_all ratio r unique); reflexivity.
Qed.

Lemma fuzzy_dedupe_apart results : kept_apart ratio (fuzzy_dedupe ratio results).
Proof.
  induction results as [|r pre IH] using rev_ind.
  - constructor.
  - rewrite fuzzy_dedupe_snoc.
    destruct (far_from_all ratio r (fuzzy_dedupe ratio pre)) eqn:E.
    + now constructor.
    + exact IH.
Qed.

Lemma fuzzy_dedupe_fixes_apart l :
  kept_apart ratio l -> fuzzy_dedupe ratio l = l.
Proof.
  induction 1 as [|pre r _ IH Hfar].
  - reflexivity.
  - rewrite fuzzy_dedupe_snoc, IH, Hfar. reflexivity.
Qed.

Lemma apart_pairs l :
  kept_apart ratio l ->
  forall i j a b, (i < j)%nat ->
    nth_error l i = Some a -> nth_error l j = Some b ->
    (ratio b a <= FUZZY_THRESHOLD)%Q.
Proof.
  induction 1 as [|pre r _ IH Hfar]; intros i j a b Hij Ha Hb.
  - destruct i; discriminate.
  - assert (Hj : (j < List.length (pre ++ [r]))%nat)
      by (apply nth_error_Some; congruence).
    rewrite length_app in Hj. simpl in Hj.
    rewrite nth_error_app1 in Ha by lia.
    destruct (Nat.eq_dec j (List.length pre)) as [->|Hne].
    + rewrite nth_error_app2, Nat.sub_diag in Hb by lia.
      injection Hb as <-.
      apply Qle_bool_iff. unfold far_from_all in Hfar.
      rewrite forallb_forall in Hfar. apply Hfar.
      eapply nth_error_In, Ha.
    + rewrite nth_error_app1 in Hb by lia. exact (IH i j a b Hij Ha Hb).
Qed.

End DedupeFacts.

Lemma subseq_snoc_skip {A} (l1 l2 : list A) x :
  subseq l1 l2 -> subseq l1 (l2 ++ [x])%list.
Proof.
  induction 1; simpl.
  - apply subseq_skip, subseq_nil.
  - now apply subseq_skip.
  - now apply subseq_keep.
Qed.

Lemma subseq_snoc_keep {A} (l1 l2 : list A) x :
  subseq l1 l2 -> subseq (l1 ++ [x])%list (l2 ++ [x])%list.
Proof.
  induction 1; simpl.
  - apply subseq_keep, subseq_nil.
  - now apply subseq_skip.
  - now apply subseq_keep.
Qed.

(** C3, as the code has it.  The deduplicator keeps a candidate exactly when
    its ratio to every result kept so far, taken of the candidate to the kept
    result, is at most the threshold, and keeps the input order.  So the
    ratio of a survivor to any earlier survivor is at most the threshold; the
    ratio in the other order is bounded too only when the ratio is symmetric,
    which the library's is not.  A candidate whose ratio to a kept result is
    above the threshold is dropped, and of two results with the ratio of the
    second to the first above the threshold the first alone is returned. *)
Theorem fuzzy_dedupe_keeps_what_is_far_from_the_kept
    (ratio : string -> string -> Q) (results : list string) :
  MistralFinal.fuzzy_dedupe ratio [] = [] /\
  (forall pre r,
     MistralFinal.fuzzy_dedupe ratio (pre ++ [r]) =
     if forallb (fun s => Qle_bool (ratio r s) MistralFinal.FUZZY_THRESHOLD)
                (MistralFinal.fuzzy_dedupe ratio pre)
     then (MistralFinal.fuzzy_dedupe ratio pre ++ [r])%list
     else MistralFinal.fuzzy_dedupe ratio pre) /\
  subseq (MistralFinal.fuzzy_dedupe ratio results) results /\
  (forall i j a b, (i < j)%nat ->
     nth_error (MistralFinal.fuzzy_dedupe ratio results) i = Some a ->
     nth_error (MistralFinal.fuzzy_dedupe ratio results) j = Some b ->
     (ratio b a <= MistralFinal.FUZZY_THRESHOLD)%Q) /\
  ((forall x y, (ratio x y == ratio y x)%Q) ->
   forall i j a b, i <> j ->
     nth_error (MistralFinal.fuzzy_dedupe ratio results) i = Some a ->
     nth_error (MistralFinal.fuzzy_dedupe ratio results) j = Some b ->
     (ratio a b <= MistralFinal.FUZZY_THRESHOLD)%Q) /\
  (forall r s, In s (MistralFinal.fuzzy_dedupe ratio results) ->
     (MistralFinal.FUZZY_THRESHOLD < ratio r s)%Q ->
     MistralFinal.fuzzy_dedupe ratio (results ++ [r]) =
     MistralFinal.fuzzy_dedupe ratio results) /\
  (forall a b, (MistralFinal.FUZZY_THRESHOLD < ratio b a)%Q ->
     MistralFinal.fuzzy_dedupe ratio [a; b] = [a]).
Proof.
  split; [reflexivity|].
  split; [intros pre r; apply fuzzy_dedupe_snoc|].
  split.
  { induction results as [|r pre IH] using rev_ind.
    - constructor.
    - rewrite fuzzy_dedupe_snoc.
      destruct (far_from_all ratio r (MistralFinal.fuzzy_dedupe ratio pre)).
      + now apply subseq_snoc_keep.
      + now apply subseq_snoc_skip. }
  pose proof (apart_pairs ratio _ (fuzzy_dedupe_apart ratio results)) as Hpairs.
  split; [exact Hpairs|].
  split.
  { intros Hsym i j a b Hij Ha Hb.
    destruct (Nat.lt_ge_cases i j) as [Hlt|Hge].
    - rewrite (Hsym a b). exact (Hpairs i j a b Hlt Ha Hb).
    - exact (Hpairs j i b a ltac:(lia) Hb Ha). }
  split.
  { intros r s Hs Hclose. rewrite fuzzy_dedupe_snoc.
    destruct (far_from_all ratio r (MistralFinal.fuzzy_dedupe ratio results))
      eqn:E; [|reflexivity].
    unfold far_from_all in E. rewrite forallb_forall in E.
    apply E, Qle_bool_iff in Hs. exfalso. exact (Qlt_not_le _ _ Hclose Hs). }
  intros a b Hclose. unfold MistralFinal.fuzzy_dedupe. simpl.
  unfold MistralFinal.too_close.
  destruct (Qle_bool (ratio b a) MistralFinal.FUZZY_THRESHOLD) eqn:E.
  - apply Qle_bool_iff in E. exfalso. exact (Qlt_not_le _ _ Hclose E).
  - reflexivity.
Qed.

Lemma fuzzy_dedupe_keeps_what_is_far_from_the_kept_witness :
  MistralFinal.fuzzy_dedupe same_text_ratio ["x"; "x"] = ["x"].
Proof.
  apply (fuzzy_dedupe_keeps_what_is_far_from_the_kept same_text_ratio []).
  reflexivity.
Defined.

(** The comparison is with the results kept, not with all those seen: the
    third text is near the second, which was dropped, and is kept. *)
Example fuzzy_dedupe_compares_with_kept_only :
  MistralFinal.fuzzy_dedupe near_length_ratio ["a"; "bb"; "ccc"] = ["a"; "ccc"].
Proof. reflexivity. Qed.

(** C3, as stated, fails: the ratio of the library depends on the order of
    its arguments.  Of the two texts, 40 letters [a] followed by [diet] and by
    [tide], both survive in that order, since the ratio of the second to the
    first is 82/88; the ratio of the first to the second is 84/88, above the
    threshold. *)
Lemma survivors_can_be_near_in_the_other_order :
  MistralFinal.fuzzy_dedupe Difflib.ratio [diet_text; tide_text] =
    [diet_text; tide_text] /\
  (Difflib.ratio tide_text diet_text == 82 # 88)%Q /\
  (Difflib.ratio tide_text diet_text <= MistralFinal.FUZZY_THRESHOLD)%Q /\
  (Difflib.ratio diet_text tide_text == 84 # 88)%Q /\
  (MistralFinal.FUZZY_THRESHOLD < Difflib.ratio diet_text tide_text)%Q /\
  MistralFinal.fuzzy_dedupe Difflib.ratio [tide_text; diet_text] = [tide_text].
Proof.
  split; [vm_compute; reflexivity|].
  split; [vm_compute; reflexivity|].
  split; [vm_compute; discriminate|].
  split; [vm_compute; reflexivity|].
  split; [vm_compute; reflexivity|].
  vm_compute. reflexivity.
Qed.

(** C7. The deduplicator returns its own output unchanged. *)
Theorem fuzzy_dedupe_idempotent
    (ratio : string -> string -> Q) (results : list string) :
  MistralFinal.fuzzy_dedupe ratio (MistralFinal.fuzzy_dedupe ratio results) =
  MistralFinal.fuzzy_dedupe ratio results.
Proof.
  apply fuzzy_dedupe_fixes_apart, fuzzy_dedupe_apart.
Qed.

(** ** [replace] works line by line *)

Lemma str_app_assoc (a b c : string) : (a ++ b) ++ c = a ++ (b ++ c).
Proof. induction a as [|x a IH]; simpl; [reflexivity|now rewrite IH]. Qed.

Lemma no_newline_app (a b : string) :
  no_newline (a ++ b) = no_newline a && no_newline b.
Proof.
  unfold no_newline. induction a as [|x a IH]; simpl; [reflexivity|].
  now rewrite IH, andb_assoc.
Qed.

Lemma prefix_length (old s : string) :
  String.prefix old s = true -> (String.length old <= String.length s)%nat.
Proof.
  revert old. induction s as [|c s IH]; intros [|a old]; simpl;
    try lia; try discriminate.
  destruct (ascii_dec a c); [|discriminate].
  intros H. apply IH in H. lia.
Qed.

Lemma prefix_within_line (old l rest : string) :
  no_newline old = true ->
  String.prefix old (l ++ String nl rest) = String.prefix old l.
Proof.
  revert old. induction l as [|c l IH]; intros [|a old] Hold; simpl;
    try reflexivity.
  - apply andb_prop in Hold. destruct Hold as [Ha _].
    apply negb_true_iff, Ascii.eqb_neq in Ha.
    destruct (ascii_dec a nl); [contradiction|reflexivity].
  - apply andb_prop in Hold. destruct Hold as [_ Hold].
    destruct (ascii_dec a c); [now apply IH|reflexivity].
Qed.

Section ReplaceFacts.

Variables old new : string.
Hypothesis Hold_ne : old <> "".
Hypothesis Hold_nl : no_newline old = true.
Hypothesis Hnew_nl : no_newline new = true.

Lemma replace_from_line (l rest : string) (k : nat) :
  no_newline l = true -> (k <= String.length l)%nat ->
  replace_from old new k (l ++ String nl rest) =
  replace_from old new k l ++ String nl (replace old new rest).
Proof.
  revert k. induction l as [|c l IH]; intros k Hl Hk.
  - simpl in Hk. replace k with 0%nat by lia.
    cbn [append replace_from].
    pose proof (prefix_within_line old "" rest Hold_nl) as E.
    cbn [append] in E. rewrite E.
    destruct old; [congruence|reflexivity].
  - simpl in Hl. apply andb_prop in Hl. destruct Hl as [_ Hl].
    destruct k as [|k].
    + change (String c l ++ String nl rest) with (String c (l ++ String nl rest)).
      cbn [replace_from].
      change (String c (l ++ String nl rest)) with (String c l ++ String nl rest).
      rewrite prefix_within_line by assumption.
      destruct (String.prefix old (String c l)) eqn:E.
      * apply prefix_length in E. simpl in E.
        rewrite IH by (assumption || lia).
        now rewrite str_app_assoc.
      * rewrite IH by (assumption || lia). reflexivity.
    + simpl. apply IH; [assumption|simpl in Hk; lia].
Qed.

Lemma replace_from_no_newline (s : string) (k : nat) :
  no_newline s = true -> no_newline (replace_from old new k s) = true.
Proof.
  revert k. induction s as [|c s IH]; intros k Hs; [reflexivity|].
  pose proof Hs as Hcs.
  simpl in Hs. apply andb_prop in Hs. destruct Hs as [Hc Hs].
  destruct k as [|k]; cbn [replace_from].
  - destruct (String.prefix old (String c s)).
    + rewrite no_newline_app, Hnew_nl. now apply IH.
    + change (no_newline (String c (replace_from old new 0 s)))
        with (negb (Ascii.eqb c nl) && no_newline (replace_from old new 0 s)).
      rewrite Hc. now apply IH.
  - now apply IH.
Qed.

Lemma replace_absent (s : string) :
  contains old s = false -> replace old new s = s.
Proof.
  unfold replace. induction s as [|c s IH]; intros H; [reflexivity|].
  cbn [contains] in H. apply orb_false_elim in H. destruct H as [Hp Hc].
  cbn [replace_from]. rewrite Hp. now rewrite IH.
Qed.

Lemma replace_join (ls : list string) :
  Forall (fun l => no_newline l = true) ls ->
  replace old new (join_nl ls) = join_nl (map (replace old new) ls).
Proof.
  induction ls as [|l ls IH]; intros Hall; [reflexivity|].
  inversion Hall as [|? ? Hl Hls]; subst.
  destruct ls as [|l' ls]; [reflexivity|].
  change (join_nl (l :: l' :: ls)) with (l ++ String nl (join_nl (l' :: ls))).
  unfold replace at 1. rewrite replace_from_line by (assumption || lia).
  rewrite (IH Hls). reflexivity.
Qed.

Lemma replace_lines_no_newline (ls : list string) :
  Forall (fun l => no_newline l = true) ls ->
  Forall (fun l => no_newline l = true) (map (replace old new) ls).
Proof.
  intros Hall. apply Forall_map. eapply Forall_impl; [|exact Hall].
  intros l Hl. now apply replace_from_no_newline.
Qed.

End ReplaceFacts.

(** ** The lines of a text *)

Lemma split_nl_not_nil (s : string) : split_nl s <> [].
Proof.
  destruct s as [|c s]; simpl; [discriminate|].
  destruct (Ascii.eqb c nl); [discriminate|].
  destruct (split_nl s); discriminate.
Qed.

Lemma join_split (s : string) : join_nl (split_nl s) = s.
Proof.
  induction s as [|c s IH]; [reflexivity|].
  pose proof (split_nl_not_nil s) as Hne. simpl.
  destruct (Ascii.eqb_spec c nl) as [->|_].
  - destruct (split_nl s) as [|l ls]; [congruence|].
    change (join_nl ("" :: l :: ls)) with (String nl (join_nl (l :: ls))).
    now rewrite IH.
  - destruct (split_nl s) as [|l ls]; [congruence|].
    destruct ls as [|l' ls].
    + unfold join_nl in *. simpl in *. congruence.
    + change (join_nl (String c l :: l' :: ls))
        with (String c (join_nl (l :: l' :: ls))).
      now rewrite IH.
Qed.

Lemma split_nl_lines (s : string) :
  Forall (fun l => no_newline l = true) (split_nl s).
Proof.
  induction s as [|c s IH]; simpl.
  - repeat constructor.
  - destruct (Ascii.eqb c nl) eqn:E.
    + constructor; [reflexivity|exact IH].
    + destruct (split_nl s) as [|l ls].
      * constructor; [|constructor]. unfold no_newline. simpl. now rewrite E.
      * inversion IH as [|? ? Hl Hls]; subst.
        constructor; [|assumption]. unfold no_newline in *. simpl.
        now rewrite E, Hl.
Qed.

(** ** A replacement table applied to a text *)

Section TableFacts.

Let apply_table (table : list (string * string)) (text : string) : string :=
  fold_left (fun text wc => replace (fst wc) (snd wc) text) table text.

Lemma table_join (table : list (string * string)) (ls : list string) :
  Forall line_local table ->
  Forall (fun l => no_newline l = true) ls ->
  apply_table table (join_nl ls) = join_nl (map (apply_table table) ls) /\
  Forall (fun l => no_newline l = true) (map (apply_table table) ls).
Proof.
  intros Htable. revert ls.
  induction Htable as [|[old new] table [Hne [Ho Hn]] _ IH]; intros ls Hls.
  - unfold apply_table. simpl. rewrite map_id. split; [reflexivity|assumption].
  - simpl in Hne, Ho, Hn.
    pose proof (replace_lines_no_newline old new Hn ls Hls) as Hls'.
    destruct (IH _ Hls') as [E Hout].
    unfold apply_table in *. simpl.
    rewrite (replace_join old new Hne Ho ls Hls), E.
    rewrite map_map in *. split; [reflexivity|exact Hout].
Qed.

Lemma table_absent (table : list (string * string)) (l : string) :
  existsb (fun wc => contains (fst wc) l) table = false ->
  apply_table table l = l.
Proof.
  unfold apply_table. induction table as [|[old new] table IH]; intros H.
  - reflexivity.
  - simpl in H. apply orb_false_elim in H. destruct H as [Ho Ht].
    simpl. rewrite (replace_absent old new l Ho). now apply IH.
Qed.

Lemma table_split (table : list (string * string)) (text : string) :
  Forall line_local table ->
  split_nl (apply_table table text) = map (apply_table table) (split_nl text).
Proof.
  intros Htable.
  destruct (table_join table (split_nl text) Htable (split_nl_lines text))
    as [E Hout].
  rewrite <- (join_split text) at 1. rewrite E.
  apply split_join; [|exact Hout].
  pose proof (split_nl_not_nil text).
  destruct (split_nl text); [congruence|discriminate].
Qed.

End TableFacts.

Lemma mistral_table_line_local : Forall line_local MistralFinal.replacements.
Proof.
  repeat constructor; simpl; discriminate.
Qed.

(** ** The header normalizer *)

(** C2, on the code: normalizing a second time changes the text again.  The
    canonical header starts with the synonym [## Entities Used], so each pass
    rewrites it once more, also when the text held it from the start;
    [normalize] of [analyze_rpg_final_restored.py] does so twice within one
    pass. *)
Theorem normalize_headers_rewrites_its_own_output :
  MistralFinal.normalize_headers "## Entities Used / Tables Used" =
    "## Entities Used / Tables Used / Tables Used" /\
  MistralFinal.normalize_headers "## Entities Used" =
    "## Entities Used / Tables Used" /\
  MistralFinal.normalize_headers
    (MistralFinal.normalize_headers "## Entities Used") =
    "## Entities Used / Tables Used / Tables Used" /\
  MistralFinal.normalize_headers
    (MistralFinal.normalize_headers "## Entities Used") <>
    MistralFinal.normalize_headers "## Entities Used" /\
  Restored.normalize "## Tables Used" =
    "## Entities Used / Tables Used / Tables Used" /\
  Restored.normalize (Restored.normalize "## Tables Used") <>
    Restored.normalize "## Tables Used".
Proof.
  split; [reflexivity|]. split; [reflexivity|]. split; [reflexivity|].
  split; [vm_compute; discriminate|].
  split; [reflexivity|]. vm_compute. discriminate.
Qed.

(** C9, as stated, fails: a line that is no header, and so none of the
    synonym header lines, is rewritten where a synonym occurs in it. *)
Lemma normalize_headers_rewrites_inside_a_sentence :
  split_nl "See ## Tables Used below" = ["See ## Tables Used below"] /\
  is_header "See ## Tables Used below" = false /\
  is_synonym_header "See ## Tables Used below" = false /\
  MistralFinal.normalize_headers "See ## Tables Used below" =
    "See ## Entities Used / Tables Used below" /\
  MistralFinal.normalize_headers "See ## Tables Used below" <>
    "See ## Tables Used below".
Proof.
  repeat split; try reflexivity. vm_compute. discriminate.
Qed.

(** ** The title in the file name *)

Lemma take_length n s : (String.length (take n s) <= n)%nat.
Proof.
  revert s. induction n as [|n IH]; intros [|c s]; simpl; try lia.
  specialize (IH s). lia.
Qed.

Lemma take_forallb p n s :
  str_forallb p s = true -> str_forallb p (take n s) = true.
Proof.
  revert s. induction n as [|n IH]; intros [|c s]; simpl; try reflexivity.
  intros H. apply andb_prop in H. destruct H as [Hc Hs].
  now rewrite Hc, IH.
Qed.

Lemma filter_forallb p s : str_forallb p (str_filter p s) = true.
Proof.
  induction s as [|c s IH]; simpl; [reflexivity|].
  destruct (p c) eqn:E; simpl; [now rewrite E|assumption].
Qed.

Lemma lstrip_forallb p s :
  str_forallb p s = true -> str_forallb p (lstrip s) = true.
Proof.
  induction s as [|c s IH]; simpl; [reflexivity|].
  intros H. destruct (is_space c); [|exact H].
  apply andb_prop in H. now apply IH.
Qed.

Lemma rstrip_forallb p s :
  str_forallb p s = true -> str_forallb p (rstrip s) = true.
Proof.
  induction s as [|c s IH]; simpl; [reflexivity|].
  intros H. apply andb_prop in H. destruct H as [Hc Hs].
  specialize (IH Hs). destruct (rstrip s) as [|d r].
  - destruct (is_space c); simpl; [reflexivity|now rewrite Hc].
  - change (str_forallb p (String c (String d r)))
      with (p c && str_forallb p (String d r)).
    now rewrite Hc, IH.
Qed.

Lemma lstrip_length s : (String.length (lstrip s) <= String.length s)%nat.
Proof.
  induction s as [|c s IH]; simpl; [lia|].
  destruct (is_space c); simpl; lia.
Qed.

Lemma rstrip_length s : (String.length (rstrip s) <= String.length s)%nat.
Proof.
  induction s as [|c s IH]; simpl; [lia|].
  destruct (rstrip s) as [|d r]; [destruct (is_space c)|]; simpl in *; lia.
Qed.

Lemma strip_forallb p s :
  str_forallb p s = true -> str_forallb p (strip s) = true.
Proof. intros H. unfold strip. now apply rstrip_forallb, lstrip_forallb. Qed.

Lemma strip_length s : (String.length (strip s) <= String.length s)%nat.
Proof.
  unfold strip. pose proof (rstrip_length (lstrip s)).
  pose proof (lstrip_length s). lia.
Qed.

Lemma prefix_empty s : String.prefix "" s = true.
Proof. destruct s; reflexivity. Qed.

(** Replacing one character by another is a map. *)
Lemma replace_char (a b : ascii) (s : string) :
  replace (String a "") (String b "") s =
  str_map (fun c => if Ascii.eqb c a then b else c) s.
Proof.
  unfold replace. induction s as [|c s IH]; [reflexivity|].
  cbn [replace_from String.prefix str_map String.length Nat.sub].
  destruct (ascii_dec a c) as [->|Hne].
  - rewrite Ascii.eqb_refl, prefix_empty. simpl. now rewrite IH.
  - rewrite (proj2 (Ascii.eqb_neq c a)) by congruence. now rewrite IH.
Qed.

Lemma map_length f s : String.length (str_map f s) = String.length s.
Proof. induction s as [|c s IH]; simpl; [reflexivity|now rewrite IH]. Qed.

Lemma map_forallb (p q : ascii -> bool) f s :
  (forall c, p c = true -> q (f c) = true) ->
  str_forallb p s = true -> str_forallb q (str_map f s) = true.
Proof.
  intros Hpq. induction s as [|c s IH]; simpl; [reflexivity|].
  intros H. apply andb_prop in H. destruct H as [Hc Hs].
  now rewrite (Hpq c Hc), IH.
Qed.

Lemma hyphenate_safe c :
  safe_char c = true ->
  slug_char (if Ascii.eqb c " " then "-"%char else c) = true.
Proof.
  unfold safe_char, slug_char. destruct (Ascii.eqb c " ") eqn:E.
  - reflexivity.
  - now rewrite orb_false_r.
Qed.

Lemma hyphenate_word c :
  Restored.title_char c = true ->
  word_slug_char (if Ascii.eqb c " " then "-"%char else c) = true.
Proof.
  unfold Restored.title_char, word_slug_char. destruct (Ascii.eqb c " ") eqn:E.
  - reflexivity.
  - intros ->. now rewrite E.
Qed.

Lemma clean_title_slug text :
  (String.length (AnalyzeAll.clean_title text) <= 75)%nat /\
  str_forallb slug_char (AnalyzeAll.clean_title text) = true.
Proof.
  unfold AnalyzeAll.clean_title.
  set (title := match AnalyzeAll.search_title text with
                | Some g => strip g
                | None => "Untitled"
                end).
  rewrite replace_char. split.
  - rewrite map_length.
    pose proof (strip_length (take 75 (str_filter AnalyzeAll.title_char title))).
    pose proof (take_length 75 (str_filter AnalyzeAll.title_char title)). lia.
  - apply (map_forallb safe_char); [apply hyphenate_safe|].
    apply strip_forallb, take_forallb. apply (filter_forallb safe_char).
Qed.

Lemma title_clean_slug text :
  (String.length (Restored.title_clean text) <= 75)%nat /\
  str_forallb word_slug_char (Restored.title_clean text) = true.
Proof.
  unfold Restored.title_clean. split; [apply take_length|].
  apply take_forallb. rewrite replace_char.
  apply (map_forallb Restored.title_char); [apply hyphenate_word|].
  apply filter_forallb.
Qed.

(** C8, as the code has it.  The name is [UC-AP-], the module code, the
    identifier and the title, joined by hyphens.  Its title part holds at most
    75 characters; in [extract_title_and_id] these are letters, digits and
    hyphens, in [extract_title_id] word characters (the underscore among
    them), hyphens and white space other than the space.  The module code and
    the identifier enter the name as they are. *)
Theorem title_part_is_truncated_and_filtered (text program : string) :
  (exists title,
     AnalyzeAll.extract_title_and_id text program =
       "UC-AP-" ++ program ++ "-" ++ AnalyzeAll.use_case_id text ++ "-" ++ title /\
     (1 <= String.length title <= 75)%nat /\
     str_forallb slug_char title = true) /\
  (exists title,
     Restored.extract_title_id text program =
       "UC-AP-" ++ program ++ "-" ++ Restored.uc_id text ++ "-" ++ title /\
     (String.length title <= 75)%nat /\
     str_forallb word_slug_char title = true).
Proof.
  split.
  - destruct (clean_title_slug text) as [Hlen Hchars].
    unfold AnalyzeAll.extract_title_and_id.
    destruct (AnalyzeAll.clean_title text) as [|c t] eqn:E.
    + exists "Untitled". split; [reflexivity|]. split; [simpl; lia|reflexivity].
    + exists (String c t). split; [reflexivity|].
      split; [simpl in *; lia|exact Hchars].
  - exists (Restored.title_clean text). split; [reflexivity|].
    apply title_clean_slug.
Qed.

(** C8, as stated, fails: [extract_title_id] keeps the underscore of a
    heading, and the name of [extract_title_and_id] for a heading of 80
    letters holds 89 characters. *)
Lemma extract_title_id_keeps_underscore :
  Restored.extract_title_id "# a_b" "160" = "UC-AP-160-XXX-a_b" /\
  str_forallb safe_char (Restored.extract_title_id "# a_b" "160") = false /\
  String.length
    (AnalyzeAll.extract_title_and_id
       ("# aaaaaaaaaaaaaaaaaaaaaaaaaaaaaaaaaaaaaaaaaaaaaaaaaaaaaaaaaaaaaaaaaaaaaaaaaaaaaaaa"
        ++ String nl "")
       "160") = 89%nat.
Proof.
  split; [reflexivity|]. split; [reflexivity|]. vm_compute. reflexivity.
Qed.

(** ** More on the chunkers: what the chunks cover *)

Lemma slice_take_skip {A} (l : list A) (i W : Z) :
  (0 <= i)%Z -> (0 <= W)%Z ->
  slice l i (i + W) = firstn (Z.to_nat W) (skipn (Z.to_nat i) l).
Proof.
  intros Hi HW. destruct (Z.le_gt_cases (i + W) (len l)) as [Hfit|Hout].
  - now apply slice_fit.
  - rewrite slice_short by lia. symmetry. apply firstn_all2.
    rewrite length_skipn. unfold len in Hout. lia.
Qed.

Lemma firstn_plus {A} (a b : nat) (l : list A) :
  firstn (a + b) l = (firstn a l ++ firstn b (skipn a l))%list.
Proof.
  revert l. induction a as [|a IH]; intros [|x l]; simpl;
    try reflexivity.
  - now rewrite firstn_nil.
  - now rewrite IH.
Qed.

(** Consecutive pieces of [s] items after a first piece of [s + v]. *)
Lemma overlap_pieces {A} (l : list A) (s v k : nat) :
  (firstn (s + v) l ++
   List.concat (map (fun i => firstn s (skipn (v + i * s) l)) (seq 1 k)))%list =
  firstn (v + (k + 1) * s) l.
Proof.
  induction k as [|k IH].
  - simpl. rewrite app_nil_r. f_equal. lia.
  - rewrite seq_S, map_app, concat_app, app_assoc, IH.
    cbn [map List.concat]. rewrite app_nil_r.
    replace (v + (1 + k) * s)%nat with (v + (k + 1) * s)%nat by lia.
    rewrite <- firstn_plus. f_equal. lia.
Qed.

Lemma range_len_reaches (L St : Z) :
  (0 < St)%Z -> (L <= range_len L St * St)%Z.
Proof.
  intros HS. pose proof (range_len_nonneg L St HS) as H0.
  destruct (Z.le_gt_cases L (range_len L St * St)) as [|Hlt]; [assumption|].
  apply (range_len_spec L St HS) in Hlt; lia.
Qed.

(** The permissive chunker has one chunk per [S] lines, rounded up. *)
Theorem permissive_chunk_count (lines : list string) (W V : Z) :
  (0 <= V < W)%Z ->
  exists chunks,
    MistralFinal.chunk_lines lines W V = Ok chunks /\
    len chunks = ((len lines + (W - V) - 1) / (W - V))%Z /\
    (lines = [] -> chunks = []) /\
    (lines <> [] -> chunks <> []).
Proof.
  intros HV.
  set (m := Z.to_nat (range_len (len lines) (W - V))).
  exists (map (window lines W) (starts m (W - V))).
  split; [apply (permissive_windows lines W V HV)|].
  assert (HS : (0 < W - V)%Z) by lia.
  pose proof (range_len_nonneg (len lines) (W - V) HS) as H0.
  assert (Hm : Z.of_nat m = ((len lines + (W - V) - 1) / (W - V))%Z).
  { unfold m. rewrite Z2Nat.id by assumption. unfold range_len.
    destruct (Z.ltb_spec 0 (W - V)); [|lia].
    destruct (Z.ltb_spec 0 (len lines)) as [Hpos|Hzero].
    - replace (len lines + (W - V) - 1)%Z
        with (len lines - 1 + 1 * (W - V))%Z by lia.
      rewrite Z.div_add by lia. lia.
    - unfold len in *. replace (Z.of_nat (List.length lines)) with 0%Z by lia.
      symmetry. apply Z.div_small. lia. }
  split; [unfold len at 1; now rewrite length_map, starts_length|].
  split.
  - intros ->. assert (E : m = 0%nat).
    { unfold len in Hm. simpl in Hm. rewrite Z.div_small in Hm by lia. lia. }
    rewrite E. reflexivity.
  - intros Hne E. apply (f_equal (@List.length string)) in E.
    rewrite length_map, starts_length in E. simpl in E.
    destruct lines as [|x lines]; [congruence|].
    rewrite E in Hm. unfold len in Hm. simpl List.length in Hm.
    assert (1 <= (Z.of_nat (S (List.length lines)) + (W - V) - 1) / (W - V))%Z.
    { apply Z.div_le_lower_bound; lia. }
    lia.
Qed.

Lemma permissive_chunk_count_witness :
  exists chunks,
    MistralFinal.chunk_lines ["a"; "b"; "c"; "d"; "e"] 3 1 = Ok chunks /\
    len chunks = 3%Z.
Proof.
  destruct (permissive_chunk_count ["a"; "b"; "c"; "d"; "e"] 3 1 ltac:(lia))
    as [chunks [Hrun [Hlen _]]].
  exists chunks. split; [exact Hrun|exact Hlen].
Defined.

(** Under the permissive chunker no line is lost: line [j] is row
    [j - i * S] of chunk [i = j / S]. *)
Theorem permissive_chunks_hold_every_line
    (lines : list string) (W V : Z) (j : nat) (line : string) :
  Forall (fun l => no_newline l = true) lines ->
  (0 <= V < W)%Z ->
  nth_error lines j = Some line ->
  exists chunks c,
    MistralFinal.chunk_lines lines W V = Ok chunks /\
    nth_error chunks (Z.to_nat (Z.of_nat j / (W - V))) = Some c /\
    nth_error (chunk_rows c) (Z.to_nat (Z.of_nat j mod (W - V))) = Some line.
Proof.
  intros Hlines HV Hj.
  assert (HjL : (j < List.length lines)%nat)
    by (apply nth_error_Some; congruence).
  assert (HS : (0 < W - V)%Z) by lia.
  set (m := Z.to_nat (range_len (len lines) (W - V))).
  set (q := (Z.of_nat j / (W - V))%Z).
  set (r := (Z.of_nat j mod (W - V))%Z).
  assert (Hq : (0 <= q)%Z) by (apply Z.div_pos; lia).
  assert (Hr : (0 <= r < W - V)%Z) by (apply Z.mod_pos_bound; lia).
  assert (Hqr : Z.of_nat j = ((W - V) * q + r)%Z)
    by (apply Z.div_mod; lia).
  pose proof (range_len_nonneg (len lines) (W - V) HS) as H0.
  assert (Hqm : (Z.to_nat q < m)%nat).
  { assert (q < range_len (len lines) (W - V))%Z
      by (apply (range_len_spec _ _ HS); unfold len; nia).
    unfold m. lia. }
  exists (map (window lines W) (starts m (W - V))),
         (window lines W (Z.of_nat (Z.to_nat q) * (W - V))).
  split; [apply (permissive_windows lines W V HV)|].
  split.
  { rewrite nth_error_map, starts_nth.
    destruct (Nat.ltb_spec (Z.to_nat q) m); [reflexivity|lia]. }
  rewrite Z2Nat.id by assumption.
  rewrite (window_rows lines W V HV Hlines) by (unfold len; nia).
  rewrite slice_take_skip by nia.
  rewrite nth_error_firstn.
  destruct (Nat.ltb_spec (Z.to_nat r) (Z.to_nat W)); [|lia].
  rewrite nth_error_skipn, <- Hj. f_equal. nia.
Qed.

Lemma permissive_chunks_hold_every_line_witness :
  exists chunks c,
    MistralFinal.chunk_lines ["a"; "b"; "c"; "d"; "e"] 3 1 = Ok chunks /\
    nth_error chunks 2 = Some c /\
    nth_error (chunk_rows c) 0 = Some "e".
Proof.
  apply (permissive_chunks_hold_every_line ["a"; "b"; "c"; "d"; "e"] 3 1 4 "e").
  - repeat constructor.
  - lia.
  - reflexivity.
Defined.

(** Under the strict chunker the last [(L - W) mod S] lines of a document of
    [L >= W] lines are in no chunk: every window ends at or before them, and
    every line before them is a row of some chunk. *)
Theorem strict_chunks_leave_out_a_tail (lines : list string) (W V : Z) :
  Forall (fun l => no_newline l = true) lines ->
  (0 <= V < W)%Z -> (W <= len lines)%Z ->
  exists chunks,
    AnalyzeAll.chunk_lines lines W V = Ok chunks /\
    (0 <= (len lines - W) mod (W - V) < W - V)%Z /\
    (forall i c, nth_error chunks i = Some c ->
       chunk_rows c =
         slice lines (Z.of_nat i * (W - V)) (Z.of_nat i * (W - V) + W) /\
       (Z.of_nat i * (W - V) + W
          <= len lines - (len lines - W) mod (W - V))%Z) /\
    (forall j line,
       (Z.of_nat j < len lines - (len lines - W) mod (W - V))%Z ->
       nth_error lines j = Some line ->
       exists i c,
         nth_error chunks i = Some c /\
         (Z.of_nat i * (W - V) <= Z.of_nat j < Z.of_nat i * (W - V) + W)%Z /\
         nth_error (chunk_rows c)
                   (Z.to_nat (Z.of_nat j - Z.of_nat i * (W - V))) = Some line).
Proof.
  intros Hlines HV HWL.
  assert (HS : (0 < W - V)%Z) by lia.
  set (q := ((len lines - W) / (W - V))%Z).
  set (d := ((len lines - W) mod (W - V))%Z).
  assert (Hd : (0 <= d < W - V)%Z) by (apply Z.mod_pos_bound; lia).
  assert (Hq : (0 <= q)%Z) by (apply Z.div_pos; lia).
  assert (Hqd : (len lines - W = (W - V) * q + d)%Z) by (apply Z.div_mod; lia).
  set (n := Z.to_nat (full_count (len lines) W (W - V))).
  assert (Hn : Z.of_nat n = (q + 1)%Z).
  { unfold n, full_count. destruct (Z.leb_spec W (len lines)); [|lia].
    fold q. lia. }
  exists (map (window lines W) (starts n (W - V))).
  split; [apply (strict_windows lines W V HV)|].
  split; [exact Hd|].
  split.
  - intros i c Hc. apply windows_nth in Hc. destruct Hc as [Hi ->].
    split; [apply (window_rows lines W V HV Hlines); nia|nia].
  - intros j line Hj Hline. fold d in Hj.
    assert (Hj0 : (0 <= Z.of_nat j / (W - V))%Z) by (apply Z.div_pos; lia).
    pose proof (Z.mul_div_le (Z.of_nat j) (W - V) HS) as Hlo.
    pose proof (Z.mul_succ_div_gt (Z.of_nat j) (W - V) HS) as Hhi.
    set (t := (Z.of_nat j / (W - V))%Z) in *.
    set (i := Z.to_nat (Z.min t q)).
    assert (Hi : (Z.of_nat i * (W - V) <= Z.of_nat j
                  < Z.of_nat i * (W - V) + W)%Z).
    { unfold i. rewrite Z2Nat.id by lia.
      destruct (Z.min_spec t q) as [[_ ->]|[Hle ->]]; [nia|].
      assert (q * (W - V) <= t * (W - V))%Z
        by (apply Z.mul_le_mono_nonneg_r; lia).
      lia. }
    assert (Hin : (i < n)%nat) by (unfold i; lia).
    exists i, (window lines W (Z.of_nat i * (W - V))).
    split.
    { rewrite nth_error_map, starts_nth.
      destruct (Nat.ltb_spec i n); [reflexivity|lia]. }
    split; [exact Hi|].
    rewrite (window_rows lines W V HV Hlines) by (unfold len in *; nia).
    rewrite slice_take_skip by nia.
    rewrite nth_error_firstn.
    destruct (Nat.ltb_spec (Z.to_nat (Z.of_nat j - Z.of_nat i * (W - V)))
                           (Z.to_nat W)); [|lia].
    rewrite nth_error_skipn, <- Hline. f_equal.
    assert (Hp : (0 <= Z.of_nat i * (W - V))%Z) by nia.
    clear - Hi Hp. set (p := (Z.of_nat i * (W - V))%Z) in *. lia.
Qed.

Lemma strict_chunks_leave_out_a_tail_witness :
  exists chunks,
    AnalyzeAll.chunk_lines ["a"; "b"; "c"; "d"; "e"; "f"] 3 1 = Ok chunks /\
    (0 <= (len ["a"; "b"; "c"; "d"; "e"; "f"] - 3) mod (3 - 1) < 3 - 1)%Z.
Proof.
  destruct (strict_chunks_leave_out_a_tail ["a"; "b"; "c"; "d"; "e"; "f"] 3 1)
    as [chunks [Hrun [Hd _]]].
  - repeat constructor.
  - lia.
  - vm_compute. discriminate.
  - exists chunks. split; [exact Hrun|exact Hd].
Defined.

(** The permissive chunks give the document back: the rows of the first
    chunk, followed by the rows of each later chunk without its first [V],
    are the lines. *)
Theorem permissive_chunks_rebuild_the_document (lines : list string) (W V : Z) :
  Forall (fun l => no_newline l = true) lines ->
  (0 <= V < W)%Z ->
  exists chunks,
    MistralFinal.chunk_lines lines W V = Ok chunks /\
    match chunks with
    | [] => lines = []
    | c :: rest =>
        (chunk_rows c ++
         List.concat (map (fun c => skipn (Z.to_nat V) (chunk_rows c)) rest))%list
        = lines
    end.
Proof.
  intros Hlines HV.
  assert (HS : (0 < W - V)%Z) by lia.
  pose proof (range_len_reaches (len lines) (W - V) HS) as Hreach.
  pose proof (range_len_nonneg (len lines) (W - V) HS) as H0.
  remember (Z.to_nat (range_len (len lines) (W - V))) as m eqn:Em.
  assert (HmL : (len lines <= Z.of_nat m * (W - V))%Z)
    by (rewrite Em, Z2Nat.id by assumption; exact Hreach).
  exists (map (window lines W) (starts m (W - V))).
  split; [rewrite Em; apply (permissive_windows lines W V HV)|].
  clear Hreach H0. destruct m as [|k].
  - simpl. destruct lines as [|x lines]; [reflexivity|].
    unfold len in HmL. simpl List.length in HmL. lia.
  - unfold starts. cbn [seq map].
    assert (Hin : forall i, (i < S k)%nat -> (Z.of_nat i * (W - V) < len lines)%Z).
    { intros i Hi. rewrite Em in Hi. exact (start_inside lines W V HV i Hi). }
    pose proof (Hin 0%nat ltac:(lia)) as Hpos.
    rewrite (window_rows lines W V HV Hlines) by (simpl; lia).
    rewrite slice_take_skip by (simpl; lia). simpl Z.to_nat. rewrite skipn_O.
    rewrite !map_map.
    rewrite (map_ext_in _
      (fun i => firstn (Z.to_nat (W - V))
                  (skipn (Z.to_nat V + i * Z.to_nat (W - V)) lines))).
    + replace (Z.to_nat W) with (Z.to_nat (W - V) + Z.to_nat V)%nat by lia.
      rewrite overlap_pieces. apply firstn_all2.
      unfold len in HmL. nia.
    + intros i Hi. apply in_seq in Hi.
      pose proof (Hin i ltac:(lia)) as Hi'.
      rewrite (window_rows lines W V HV Hlines) by nia.
      rewrite slice_take_skip by nia.
      rewrite skipn_firstn_comm, skipn_skipn.
      f_equal; [lia|f_equal; nia].
Qed.

Lemma permissive_chunks_rebuild_the_document_witness :
  exists chunks,
    MistralFinal.chunk_lines ["a"; "b"; "c"; "d"; "e"] 3 1 = Ok chunks /\
    List.length chunks = 3%nat.
Proof.
  destruct (permissive_chunks_rebuild_the_document ["a"; "b"; "c"; "d"; "e"] 3 1)
    as [chunks [Hrun _]].
  - repeat constructor.
  - lia.
  - exists chunks. split; [exact Hrun|].
    vm_compute in Hrun. injection Hrun as <-. reflexivity.
Defined.

(** ** More on the deduplicator *)

Lemma forallb_refuted {A} (f : A -> bool) (l : list A) :
  forallb f l = false -> exists x, In x l /\ f x = false.
Proof.
  induction l as [|a l IH]; simpl; [discriminate|].
  destruct (f a) eqn:E; simpl.
  - intros H. destruct (IH H) as [x [Hx Hf]]. exists x. split; [now right|exact Hf].
  - intros _. exists a. split; [now left|exact E].
Qed.

Lemma loop_extends (ratio : string -> string -> Q) (l : list string) :
  forall seen unique,
  exists more,
    snd (fold_left (MistralFinal.dedupe_step ratio) l (seen, unique)) =
    (unique ++ more)%list /\
    (List.length more <= List.length l)%nat.
Proof.
  induction l as [|r l IH]; intros seen unique; simpl.
  - exists []. now rewrite app_nil_r.
  - destruct (negb (existsb (MistralFinal.too_close ratio r) seen)).
    + destruct (IH (seen ++ [r])%list (unique ++ [r])%list) as [more [E Hlen]].
      exists (r :: more). rewrite E, <- app_assoc. split; [reflexivity|simpl; lia].
    + destruct (IH seen unique) as [more [E Hlen]].
      exists more. split; [exact E|lia].
Qed.

(** A result that is dropped is near a survivor: every input result is in
    the output or has a ratio above the threshold to a result of the
    output. *)
Theorem fuzzy_dedupe_drops_only_near_duplicates
    (ratio : string -> string -> Q) (results : list string) (r : string) :
  In r results ->
  In r (MistralFinal.fuzzy_dedupe ratio results) \/
  exists s, In s (MistralFinal.fuzzy_dedupe ratio results) /\
            (MistralFinal.FUZZY_THRESHOLD < ratio r s)%Q.
Proof.
  induction results as [|x pre IH] using rev_ind; [contradiction|].
  intros Hin. rewrite fuzzy_dedupe_snoc.
  apply in_app_or in Hin. destruct Hin as [Hpre|[<-|[]]].
  - destruct (IH Hpre) as [Hkept|[s [Hs Hclose]]];
      destruct (far_from_all ratio x (MistralFinal.fuzzy_dedupe ratio pre)).
    + left. apply in_or_app. now left.
    + now left.
    + right. exists s. split; [apply in_or_app; now left|exact Hclose].
    + right. exists s. split; assumption.
  - destruct (far_from_all ratio x (MistralFinal.fuzzy_dedupe ratio pre)) eqn:E.
    + left. apply in_or_app. right. now left.
    + right. apply forallb_refuted in E. destruct E as [s [Hs Hfar]].
      exists s. split; [exact Hs|].
      apply Qnot_le_lt. intros Hle. apply Qle_bool_iff in Hle. congruence.
Qed.

Lemma fuzzy_dedupe_drops_only_near_duplicates_witness :
  In "x" (MistralFinal.fuzzy_dedupe same_text_ratio ["x"; "x"]) \/
  exists s, In s (MistralFinal.fuzzy_dedupe same_text_ratio ["x"; "x"]) /\
            (MistralFinal.FUZZY_THRESHOLD < same_text_ratio "x" s)%Q.
Proof.
  apply (fuzzy_dedupe_drops_only_near_duplicates same_text_ratio ["x"; "x"] "x").
  simpl. now left.
Defined.

(** Results that are pairwise far are all kept: when the ratio of each
    result to every earlier one is at most the threshold, the deduplicator
    returns its input. *)
Theorem fuzzy_dedupe_keeps_results_that_are_far
    (ratio : string -> string -> Q) (results : list string) :
  (forall i j a b, (i < j)%nat ->
     nth_error results i = Some a -> nth_error results j = Some b ->
     (ratio b a <= MistralFinal.FUZZY_THRESHOLD)%Q) ->
  MistralFinal.fuzzy_dedupe ratio results = results.
Proof.
  intros Hfar. apply fuzzy_dedupe_fixes_apart.
  induction results as [|x pre IH] using rev_ind; [constructor|].
  constructor.
  - apply IH. intros i j a b Hij Ha Hb.
    assert (j < List.length pre)%nat by (apply nth_error_Some; congruence).
    apply (Hfar i j a b Hij); rewrite nth_error_app1 by lia; assumption.
  - unfold far_from_all. apply forallb_forall. intros s Hs.
    apply Qle_bool_iff. apply In_nth_error in Hs. destruct Hs as [i Hi].
    assert (i < List.length pre)%nat by (apply nth_error_Some; congruence).
    apply (Hfar i (List.length pre) s x); [lia| |].
    + now rewrite nth_error_app1 by lia.
    + now rewrite nth_error_app2, Nat.sub_diag by lia.
Qed.

Lemma fuzzy_dedupe_keeps_results_that_are_far_witness :
  MistralFinal.fuzzy_dedupe same_text_ratio ["x"; "y"] = ["x"; "y"].
Proof.
  apply (fuzzy_dedupe_keeps_results_that_are_far same_text_ratio ["x"; "y"]).
  intros [|[|i]] [|[|[|j]]] a b Hij Ha Hb; simpl in Ha, Hb;
    try lia; try discriminate.
  injection Ha as <-. injection Hb as <-. vm_compute. discriminate.
Defined.

(** The first result always survives, at the head of the output, and the
    output is never longer than the input. *)
Theorem fuzzy_dedupe_keeps_the_first_result
    (ratio : string -> string -> Q) (r : string) (rest : list string) :
  exists more,
    MistralFinal.fuzzy_dedupe ratio (r :: rest) = r :: more /\
    (List.length more <= List.length rest)%nat.
Proof.
  unfold MistralFinal.fuzzy_dedupe. simpl.
  destruct (loop_extends ratio rest [r] [r]) as [more [E Hlen]].
  exists more. split; [exact E|exact Hlen].
Qed.

(** ** What [replace] makes and what it leaves *)

Lemma replace_from_drop (old new s : string) (k : nat) :
  replace_from old new k s = replace old new (drop k s).
Proof.
  unfold replace. revert k. induction s as [|c s IH]; intros [|k];
    try reflexivity.
  simpl. apply IH.
Qed.

Lemma prefix_split (old s : string) :
  String.prefix old s = true -> s = old ++ drop (String.length old) s.
Proof.
  revert old. induction s as [|c s IH]; intros [|a old]; simpl;
    try reflexivity; try discriminate.
  destruct (ascii_dec a c) as [->|]; [|discriminate].
  intros H. now rewrite <- (IH old H).
Qed.

Lemma replace_match (old new s : string) :
  old <> "" -> String.prefix old s = true ->
  replace old new s = new ++ replace old new (drop (String.length old) s).
Proof.
  intros Hne Hp. destruct old as [|a old]; [congruence|].
  destruct s as [|c s]; [discriminate|].
  unfold replace at 1. cbn [replace_from]. rewrite Hp.
  rewrite replace_from_drop. simpl. now rewrite Nat.sub_0_r.
Qed.

Lemma replace_miss (old new : string) (c : ascii) (s : string) :
  String.prefix old (String c s) = false ->
  replace old new (String c s) = String c (replace old new s).
Proof.
  intros Hp. unfold replace. cbn [replace_from]. now rewrite Hp.
Qed.

Lemma prefix_app (p x : string) : String.prefix p (p ++ x) = true.
Proof.
  induction p as [|a p IH]; simpl; [apply prefix_empty|].
  destruct (ascii_dec a a); [exact IH|congruence].
Qed.

Lemma contains_prefix (p s : string) :
  String.prefix p s = true -> contains p s = true.
Proof. intros H. destruct s; simpl in *; now rewrite H. Qed.

Lemma contains_app_r (p a x : string) :
  contains p x = true -> contains p (a ++ x) = true.
Proof.
  intros H. induction a as [|c a IH]; [exact H|].
  cbn [append contains]. rewrite IH. apply orb_true_r.
Qed.

Lemma drop_length (k : nat) (s : string) :
  (String.length (drop k s) <= String.length s)%nat.
Proof.
  revert s. induction k as [|k IH]; intros [|c s]; simpl; try lia.
  specialize (IH s). lia.
Qed.

(** An occurrence of [old] becomes an occurrence of [new]. *)
Lemma replace_creates (old new s : string) :
  old <> "" ->
  contains old s = true -> contains new (replace old new s) = true.
Proof.
  intros Hne. unfold replace. induction s as [|c s IH]; intros H.
  - simpl in H. rewrite orb_false_r in H.
    destruct old; [congruence|discriminate].
  - cbn [replace_from]. destruct (String.prefix old (String c s)) eqn:E.
    + apply contains_prefix, prefix_app.
    + cbn [contains] in H. rewrite E in H. simpl in H.
      cbn [contains]. rewrite (IH H). apply orb_true_r.
Qed.

Lemma str_app_length (a b : string) :
  String.length (a ++ b) = (String.length a + String.length b)%nat.
Proof. induction a as [|c a IH]; simpl; [reflexivity|now rewrite IH]. Qed.

Section ReplaceKeeps.

(** [p] and [old] are apart: no occurrence of [p] starts in an occurrence of
    [old], and none of [old] starts in an occurrence of [p]. *)
Variables old new p : string.
Hypothesis Hold_ne : old <> "".
Hypothesis Hp_after : forall rest, contains p (old ++ rest) = contains p rest.
Hypothesis Hold_after :
  forall rest, replace old new (p ++ rest) = p ++ replace old new rest.

Lemma replace_keeps_bounded (n : nat) (s : string) :
  (String.length s <= n)%nat ->
  contains p s = true -> contains p (replace old new s) = true.
Proof.
  revert s. induction n as [|n IH]; intros s Hlen H.
  - destruct s; [|simpl in Hlen; lia].
    simpl in H. rewrite orb_false_r in H.
    destruct p; [reflexivity|discriminate].
  - destruct (String.prefix old s) eqn:E.
    + rewrite (replace_match old new s Hold_ne E).
      apply contains_app_r. apply IH.
      * pose proof (prefix_split old s E) as Hs.
        apply (f_equal String.length) in Hs.
        rewrite str_app_length in Hs.
        assert (1 <= String.length old)%nat
          by (clear - Hold_ne; destruct old; [congruence|simpl; lia]).
        lia.
      * rewrite (prefix_split old s E), Hp_after in H. exact H.
    + destruct s as [|c s].
      * simpl in H. rewrite orb_false_r in H.
        destruct p; [reflexivity|discriminate].
      * destruct (String.prefix p (String c s)) eqn:Ep.
        -- rewrite (prefix_split p _ Ep), Hold_after.
           apply contains_prefix, prefix_app.
        -- rewrite (replace_miss old new c s E).
           cbn [contains] in H. rewrite Ep in H. simpl in H.
           cbn [contains]. rewrite (IH s); [apply orb_true_r| |exact H].
           simpl in Hlen. lia.
Qed.

Lemma replace_keeps (s : string) :
  contains p s = true -> contains p (replace old new s) = true.
Proof. apply (replace_keeps_bounded (String.length s)). lia. Qed.

End ReplaceKeeps.

(** ** The normalizer and the validators *)

Ltac apart := intros; reflexivity.

Ltac kept_by_replace :=
  apply replace_keeps; [discriminate|apart|apart|].

Lemma filter_length_mono {A} (f g : A -> bool) (l : list A) :
  (forall x, In x l -> f x = true -> g x = true) ->
  (List.length (filter f l) <= List.length (filter g l))%nat.
Proof.
  induction l as [|a l IH]; intros H; simpl; [lia|].
  assert (IH' := IH (fun x Hx => H x (or_intror Hx))).
  destruct (f a) eqn:E.
  - rewrite (H a (or_introl eq_refl) E). simpl. lia.
  - destruct (g a); simpl; lia.
Qed.

(** Each marker the validators look for survives the normalizer. *)
Lemma marker_kept_mistral (text c : string) :
  In c MistralFinal.checks ->
  contains c text = true ->
  contains c (MistralFinal.normalize_headers text) = true.
Proof.
  unfold MistralFinal.normalize_headers, MistralFinal.replacements.
  cbn [fold_left fst snd].
  intros [<-|[<-|[<-|[<-|[]]]]] H; repeat kept_by_replace; exact H.
Qed.

Lemma marker_kept_restored (text c : string) :
  In c MistralFinal.checks ->
  contains c text = true ->
  contains c (Restored.normalize text) = true.
Proof.
  unfold Restored.normalize, Restored.replacements.
  cbn [fold_left fst snd].
  intros [<-|[<-|[<-|[<-|[]]]]] H; repeat kept_by_replace; exact H.
Qed.

(** A response that names its validation section by either synonym has the
    canonical validation header once normalized. *)
Theorem validation_synonyms_become_canonical (text : string) :
  contains "## Input Validation" text || contains "## Validation Rules" text
    = true ->
  contains "## Input Type Validation Checks"
           (MistralFinal.normalize_headers text) = true.
Proof.
  unfold MistralFinal.normalize_headers, MistralFinal.replacements.
  cbn [fold_left fst snd]. intros H.
  do 2 kept_by_replace.
  destruct (contains "## Input Validation" text) eqn:E1.
  - kept_by_replace. apply replace_creates; [discriminate|exact E1].
  - simpl in H. apply replace_creates; [discriminate|].
    kept_by_replace. exact H.
Qed.

Lemma validation_synonyms_become_canonical_witness :
  contains "## Input Type Validation Checks"
           (MistralFinal.normalize_headers "## Validation Rules") = true.
Proof.
  apply (validation_synonyms_become_canonical "## Validation Rules").
  reflexivity.
Defined.

(** A response that names its entities section by either synonym has the
    canonical entities header once normalized. *)
Theorem entity_synonyms_become_canonical (text : string) :
  contains "## Entities Used" text || contains "## Tables Used" text = true ->
  contains "## Entities Used / Tables Used"
           (MistralFinal.normalize_headers text) = true.
Proof.
  unfold MistralFinal.normalize_headers, MistralFinal.replacements.
  cbn [fold_left fst snd]. intros H.
  destruct (contains "## Entities Used" text) eqn:E1.
  - kept_by_replace. apply replace_creates; [discriminate|].
    do 2 kept_by_replace. exact E1.
  - simpl in H. apply replace_creates; [discriminate|].
    do 3 kept_by_replace. exact H.
Qed.

Lemma entity_synonyms_become_canonical_witness :
  contains "## Entities Used / Tables Used"
           (MistralFinal.normalize_headers "## Tables Used") = true.
Proof.
  apply (entity_synonyms_become_canonical "## Tables Used"). reflexivity.
Defined.

(** Normalizing never turns an accepted response into a rejected one, under
    either validator. *)
Theorem normalizing_keeps_a_response_valid (text : string) :
  (MistralFinal.is_valid_output text = true ->
   MistralFinal.is_valid_output (MistralFinal.normalize_headers text) = true) /\
  (Restored.is_valid text = true ->
   Restored.is_valid (Restored.normalize text) = true).
Proof.
  split.
  - unfold MistralFinal.is_valid_output. intros H.
    apply Nat.leb_le in H. apply Nat.leb_le.
    etransitivity; [exact H|]. apply filter_length_mono.
    intros c Hc. now apply marker_kept_mistral.
  - unfold Restored.is_valid. intros H.
    rewrite forallb_forall in H. apply forallb_forall. intros c Hc.
    apply marker_kept_restored; [|now apply H].
    simpl in Hc. simpl. tauto.
Qed.

Lemma normalizing_keeps_a_response_valid_witness :
  MistralFinal.is_valid_output
    (MistralFinal.normalize_headers "## Description ## Process Steps") = true.
Proof.
  apply (normalizing_keeps_a_response_valid "## Description ## Process Steps").
  reflexivity.
Defined.

(** The validator of [analyze_rpg_final_restored.py] is the stricter one:
    what it accepts, the validator of [analyze_rpg_usecases_mistral_final.py]
    accepts too. *)
Theorem is_valid_implies_is_valid_output (text : string) :
  Restored.is_valid text = true -> MistralFinal.is_valid_output text = true.
Proof.
  unfold Restored.is_valid, MistralFinal.is_valid_output, MistralFinal.checks.
  cbn [forallb filter]. intros H.
  apply andb_prop in H. destruct H as [H1 H].
  apply andb_prop in H. destruct H as [H2 H].
  apply andb_prop in H. destruct H as [H3 _].
  rewrite H1, H2, H3.
  destruct (contains "## Input Type Validation Checks" text); reflexivity.
Qed.

Lemma is_valid_implies_is_valid_output_witness :
  MistralFinal.is_valid_output
    "## Identification ## Description ## Process Steps" = true.
Proof.
  apply (is_valid_implies_is_valid_output
           "## Identification ## Description ## Process Steps").
  reflexivity.
Defined.

(** With a validation synonym and one of the other three markers the
    normalized response is accepted, though the response as it came may not
    be. *)
Theorem synonym_counts_once_normalized (text : string) :
  contains "## Input Validation" text || contains "## Validation Rules" text
    = true ->
  contains "## Identification" text || contains "## Description" text
    || contains "## Process Steps" text = true ->
  MistralFinal.is_valid_output (MistralFinal.normalize_headers text) = true.
Proof.
  intros Hsyn Hother.
  assert (Hcanon : contains "## Input Type Validation Checks"
                     (MistralFinal.normalize_headers text) = true).
  { unfold MistralFinal.normalize_headers, MistralFinal.replacements.
    cbn [fold_left fst snd]. do 2 kept_by_replace.
    destruct (contains "## Input Validation" text) eqn:E1.
    - kept_by_replace. apply replace_creates; [discriminate|exact E1].
    - simpl in Hsyn. apply replace_creates; [discriminate|].
      kept_by_replace. exact Hsyn. }
  assert (Hkeep : forall c, In c MistralFinal.checks ->
            contains c text = true ->
            contains c (MistralFinal.normalize_headers text) = true)
    by (intros c; apply marker_kept_mistral).
  unfold MistralFinal.is_valid_output, MistralFinal.checks in *.
  cbn [filter]. rewrite Hcanon.
  apply orb_prop in Hother. destruct Hother as [Hother|H3].
  - apply orb_prop in Hother. destruct Hother as [H1|H2].
    + rewrite (Hkeep _ (or_introl eq_refl) H1).
      repeat match goal with
             | |- context [if ?b then _ else _] => destruct b
             end; reflexivity.
    + rewrite (Hkeep "## Description" ltac:(simpl; tauto) H2).
      repeat match goal with
             | |- context [if ?b then _ else _] => destruct b
             end; reflexivity.
  - rewrite (Hkeep "## Process Steps" ltac:(simpl; tauto) H3).
    repeat match goal with
           | |- context [if ?b then _ else _] => destruct b
           end; reflexivity.
Qed.

Lemma synonym_counts_once_normalized_witness :
  MistralFinal.is_valid_output "## Description ## Validation Rules" = false /\
  MistralFinal.is_valid_output
    (MistralFinal.normalize_headers "## Description ## Validation Rules") = true.
Proof.
  split; [reflexivity|].
  apply (synonym_counts_once_normalized "## Description ## Validation Rules");
    reflexivity.
Defined.

(** ** More on the names: what they fall back to *)







Lemma strip_prefix_none (p s : string) :
  String.prefix p s = false -> strip_prefix p s = None.
Proof.
  revert p. induction s as [|c s IH]; intros [|a p]; simpl;
    try reflexivity; try discriminate.
  destruct (ascii_dec a c) as [->|Hne].
  - rewrite Ascii.eqb_refl. apply IH.
  - intros _. now rewrite (proj2 (Ascii.eqb_neq a c) Hne).
Qed.

(** Without the words [Use Case ID] in the response both extractors put
    [XXX] for the identifier. *)
Theorem identifier_falls_back_to_XXX (text : string) :
  contains "Use Case ID" text = false ->
  AnalyzeAll.use_case_id text = "XXX" /\ Restored.uc_id text = "XXX".
Proof.
  intros H.
  assert (E1 : AnalyzeAll.search_id text = None).
  { induction text as [|c s IH].
    - reflexivity.
    - cbn [contains] in H. apply orb_false_elim in H. destruct H as [Hp Hs].
      cbn [AnalyzeAll.search_id].
      rewrite (strip_prefix_none _ _ Hp). now apply IH. }
  assert (Hpre : forall s, String.prefix "Use Case ID" s = false ->
                           String.prefix "Use Case ID**:" s = false).
  { intros s Hs. destruct (String.prefix "Use Case ID**:" s) eqn:E; [|reflexivity].
    apply prefix_split in E. rewrite E in Hs.
    change ("Use Case ID**:" ++ drop (String.length "Use Case ID**:") s)
      with ("Use Case ID" ++ ("**:" ++ drop (String.length "Use Case ID**:") s))
      in Hs.
    now rewrite prefix_app in Hs. }
  assert (E2 : Restored.search_uc_id text = None).
  { induction text as [|c s IH].
    - reflexivity.
    - cbn [contains] in H. apply orb_false_elim in H. destruct H as [Hp Hs].
      assert (E1' : AnalyzeAll.search_id s = None).
      { cbn [AnalyzeAll.search_id] in E1.
        rewrite (strip_prefix_none _ _ Hp) in E1. exact E1. }
      cbn [Restored.search_uc_id]. unfold Restored.match_uc_id.
      rewrite (strip_prefix_none _ _ (Hpre _ Hp)). now apply IH. }
  unfold AnalyzeAll.use_case_id, Restored.uc_id. rewrite E1, E2.
  split; reflexivity.
Qed.

Lemma identifier_falls_back_to_XXX_witness :
  AnalyzeAll.use_case_id "## Description" = "XXX" /\
  Restored.uc_id "## Description" = "XXX".
Proof.
  apply (identifier_falls_back_to_XXX "## Description"). reflexivity.
Defined.

(** ** More on the names: what they are made of *)

Lemma span_forallb (p : ascii -> bool) (s : string) :
  str_forallb p (fst (span p s)) = true.
Proof.
  induction s as [|c s IH]; simpl; [reflexivity|].
  destruct (p c) eqn:E; [|reflexivity].
  destruct (span p s) as [a b]. simpl in *. now rewrite E, IH.
Qed.

Lemma forallb_app (p : ascii -> bool) (a b : string) :
  str_forallb p (a ++ b) = str_forallb p a && str_forallb p b.
Proof.
  induction a as [|c a IH]; simpl; [reflexivity|].
  now rewrite IH, andb_assoc.
Qed.

Lemma forallb_weaken (p q : ascii -> bool) (s : string) :
  (forall c, p c = true -> q c = true) ->
  str_forallb p s = true -> str_forallb q s = true.
Proof.
  intros Hpq. induction s as [|c s IH]; simpl; [reflexivity|].
  intros H. apply andb_prop in H. destruct H as [Hc Hs].
  now rewrite (Hpq c Hc), IH.
Qed.

Lemma prefix_char (a c : ascii) (s : string) :
  String.prefix (String a "") (String c s) = Ascii.eqb a c.
Proof.
  cbn [String.prefix]. destruct (ascii_dec a c) as [->|Hne].
  - now rewrite prefix_empty, Ascii.eqb_refl.
  - symmetry. now apply Ascii.eqb_neq.
Qed.

Lemma match_uc_id_digits (s d : string) :
  Restored.match_uc_id s = Some d ->
  d <> "" /\ str_forallb is_digit d = true.
Proof.
  unfold Restored.match_uc_id.
  destruct (strip_prefix "Use Case ID**:" s) as [s1|]; [|discriminate].
  destruct (strip_prefix "UC-" (lstrip s1)) as [s2|]; [|discriminate].
  destruct (span is_upper s2) as [up s3].
  destruct (is_empty up); [discriminate|].
  destruct (strip_prefix "-" s3) as [s4|]; [|discriminate].
  destruct (span is_upper s4) as [skipped s5].
  pose proof (span_forallb is_digit s5) as Hd.
  destruct (span is_digit s5) as [ds rest]. simpl in Hd.
  destruct ds as [|c ds]; simpl; [discriminate|].
  intros E. injection E as <-. split; [discriminate|exact Hd].
Qed.

Lemma digit_is_word_slug (c : ascii) :
  is_digit c = true -> word_slug_char c = true.
Proof.
  unfold word_slug_char, is_word, is_alnum_ascii. intros H. rewrite H.
  rewrite !orb_true_r. simpl.
  destruct (Ascii.eqb_spec c " ") as [->|_]; [discriminate|reflexivity].
Qed.

(** The identifier of [extract_title_id] is [XXX] or a run of at least one
    digit; with a module code of digits the whole name is made of word
    characters, hyphens and white space other than the space, so it holds no
    path separator. *)
Theorem extract_title_id_name_is_one_path_segment (text program : string) :
  (Restored.uc_id text = "XXX" \/
   (Restored.uc_id text <> "" /\
    str_forallb is_digit (Restored.uc_id text) = true)) /\
  (str_forallb is_digit program = true ->
   str_forallb word_slug_char (Restored.extract_title_id text program) = true /\
   contains "/" (Restored.extract_title_id text program) = false).
Proof.
  assert (Hid : Restored.uc_id text = "XXX" \/
                (Restored.uc_id text <> "" /\
                 str_forallb is_digit (Restored.uc_id text) = true)).
  { unfold Restored.uc_id.
    destruct (Restored.search_uc_id text) as [d|] eqn:E; [|now left].
    right. induction text as [|c s IH].
    - cbn [Restored.search_uc_id] in E.
      destruct (Restored.match_uc_id "") eqn:Em; [|discriminate].
      injection E as <-. now apply match_uc_id_digits in Em.
    - cbn [Restored.search_uc_id] in E.
      destruct (Restored.match_uc_id (String c s)) eqn:Em.
      + injection E as <-. now apply match_uc_id_digits in Em.
      + now apply IH. }
  split; [exact Hid|].
  intros Hprog.
  assert (Hname : str_forallb word_slug_char
                    (Restored.extract_title_id text program) = true).
  { unfold Restored.extract_title_id. rewrite !forallb_app.
    rewrite (forallb_weaken is_digit word_slug_char program digit_is_word_slug Hprog).
    rewrite (proj2 (title_clean_slug text)).
    destruct Hid as [->|[_ Hd]]; [reflexivity|].
    rewrite (forallb_weaken is_digit word_slug_char _ digit_is_word_slug Hd).
    reflexivity. }
  split; [exact Hname|].
  clear - Hname. induction (Restored.extract_title_id text program) as [|c s IH].
  - reflexivity.
  - simpl in Hname. apply andb_prop in Hname. destruct Hname as [Hc Hs].
    cbn [contains]. rewrite (IH Hs), orb_false_r, prefix_char.
    destruct (Ascii.eqb_spec "/" c) as [<-|_]; [discriminate|reflexivity].
Qed.

Lemma extract_title_id_name_is_one_path_segment_witness :
  contains "/" (Restored.extract_title_id "# Pay / void" "160") = false.
Proof.
  apply (extract_title_id_name_is_one_path_segment "# Pay / void" "160").
  reflexivity.
Defined.

Lemma replace_from_forallb (q : ascii -> bool) (old new s : string) (k : nat) :
  str_forallb q new = true -> str_forallb q s = true ->
  str_forallb q (replace_from old new k s) = true.
Proof.
  intros Hnew. revert k. induction s as [|c s IH]; intros k Hs; [reflexivity|].
  simpl in Hs. apply andb_prop in Hs. destruct Hs as [Hc Hs].
  destruct k as [|k]; cbn [replace_from].
  - destruct (String.prefix old (String c s)).
    + rewrite forallb_app, Hnew. now apply IH.
    + cbn [str_forallb]. rewrite Hc. now apply IH.
  - now apply IH.
Qed.

Lemma split_ws_tokens (s cur : string) :
  str_forallb (fun c => negb (is_space c)) cur = true ->
  Forall (fun t => str_forallb (fun c => negb (is_space c)) t = true)
         (split_ws_from cur s).
Proof.
  revert cur. induction s as [|c s IH]; intros cur Hcur; simpl.
  - destruct cur; repeat constructor. exact Hcur.
  - destruct (is_space c) eqn:E.
    + apply Forall_app. split; [|now apply IH].
      destruct cur; repeat constructor. exact Hcur.
    + apply IH. rewrite forallb_app, Hcur. simpl. now rewrite E.
Qed.

Lemma last_Forall {A} (P : A -> Prop) (l : list A) (d : A) :
  P d -> Forall P l -> P (List.last l d).
Proof.
  intros Hd. induction 1 as [|x l Hx Hl IH]; [exact Hd|].
  simpl. destruct l; [exact Hx|exact IH].
Qed.

(** The identifier of [extract_title_and_id] holds no white space: it is the
    last word of the identifier line, without its [UC-]. *)
Theorem use_case_id_has_no_white_space (text : string) :
  str_forallb (fun c => negb (is_space c)) (AnalyzeAll.use_case_id text) = true.
Proof.
  unfold AnalyzeAll.use_case_id.
  destruct (AnalyzeAll.search_id text) as [g|]; [|reflexivity].
  apply replace_from_forallb; [reflexivity|].
  apply (last_Forall
           (fun t => str_forallb (fun c => negb (is_space c)) t = true));
    [reflexivity|].
  now apply split_ws_tokens.
Qed.

(** ** The name of [claude-version-2.py] *)

Lemma contains_double_hyphen (c : ascii) (s : string) :
  contains "--" (String c s) =
  (Ascii.eqb c "-" && String.prefix "-" s) || contains "--" s.
Proof.
  cbn [contains]. f_equal.
  change "--" with (String "-" "-"). cbn [String.prefix].
  destruct (ascii_dec "-" c) as [<-|Hne]; [reflexivity|].
  symmetry. apply andb_false_iff. left. apply Ascii.eqb_neq. congruence.
Qed.

Lemma collapse_starts_alike (s : string) :
  String.prefix "-" (ClaudeVersion2.collapse_hyphens s) = String.prefix "-" s.
Proof.
  induction s as [|c s IH]; [reflexivity|].
  cbn [ClaudeVersion2.collapse_hyphens].
  destruct (Ascii.eqb_spec c "-") as [->|Hne]; cbn [andb].
  - destruct (String.prefix "-" s) eqn:E.
    + rewrite IH. symmetry. apply (prefix_char "-" "-").
    + rewrite !prefix_char. reflexivity.
  - rewrite !prefix_char. reflexivity.
Qed.

Lemma collapse_no_double_hyphen (s : string) :
  contains "--" (ClaudeVersion2.collapse_hyphens s) = false.
Proof.
  induction s as [|c s IH]; [reflexivity|].
  cbn [ClaudeVersion2.collapse_hyphens].
  destruct (Ascii.eqb c "-" && String.prefix "-" s) eqn:E; [exact IH|].
  rewrite contains_double_hyphen, IH, collapse_starts_alike, E. reflexivity.
Qed.

Lemma take_starts_alike (n : nat) (s : string) :
  String.prefix "-" (take n s) = true -> String.prefix "-" s = true.
Proof.
  destruct n as [|n], s as [|c s]; cbn [take]; try (simpl; discriminate).
  rewrite !prefix_char. auto.
Qed.

Lemma take_no_double_hyphen (n : nat) (s : string) :
  contains "--" s = false -> contains "--" (take n s) = false.
Proof.
  revert s. induction n as [|n IH]; intros [|c s] H; try reflexivity.
  cbn [take]. rewrite contains_double_hyphen in *.
  apply orb_false_elim in H. destruct H as [Hc Hs].
  rewrite (IH s Hs), orb_false_r.
  destruct (Ascii.eqb c "-"); [|reflexivity]. simpl in *.
  destruct (String.prefix "-" (take n s)) eqn:E; [|reflexivity].
  apply take_starts_alike in E. congruence.
Qed.

Lemma collapse_forallb (p : ascii -> bool) (s : string) :
  str_forallb p s = true ->
  str_forallb p (ClaudeVersion2.collapse_hyphens s) = true.
Proof.
  induction s as [|c s IH]; [reflexivity|].
  simpl. intros H. apply andb_prop in H. destruct H as [Hc Hs].
  destruct (Ascii.eqb c "-" && String.prefix "-" s); [now apply IH|].
  simpl. now rewrite Hc, IH.
Qed.

Lemma format_02d_two_digits (n : Z) :
  (0 <= n < 100)%Z ->
  String.length (format_02d n) = 2%nat /\
  str_forallb is_digit (format_02d n) = true.
Proof.
  intros Hn.
  assert (Hall : forallb
            (fun k => (String.length (format_02d (Z.of_nat k)) =? 2)%nat &&
                      str_forallb is_digit (format_02d (Z.of_nat k)))
            (seq 0 100) = true) by (vm_compute; reflexivity).
  rewrite forallb_forall in Hall.
  specialize (Hall (Z.to_nat n)). rewrite Z2Nat.id in Hall by lia.
  assert (Hin : In (Z.to_nat n) (seq 0 100)) by (apply in_seq; lia).
  apply Hall in Hin. apply andb_prop in Hin. destruct Hin as [Hlen Hd].
  apply Nat.eqb_eq in Hlen. split; assumption.
Qed.

(** The name of [extract_title] is [UC-AP-], the module code, the counter
    and the title.  The title part holds at most 40 characters, all letters,
    digits or hyphens, and no two hyphens in a row; a counter from 0 to 99
    is written with two digits. *)
Theorem extract_title_collapses_hyphens
    (text program : string) (use_case_counter : Z) :
  exists title,
    ClaudeVersion2.extract_title text program use_case_counter =
      "UC-AP-" ++ program ++ "-" ++ format_02d use_case_counter ++ "-" ++ title /\
    (String.length title <= 40)%nat /\
    str_forallb slug_char title = true /\
    contains "--" title = false /\
    ((0 <= use_case_counter < 100)%Z ->
     String.length (format_02d use_case_counter) = 2%nat /\
     str_forallb is_digit (format_02d use_case_counter) = true).
Proof.
  exists (take 40 (ClaudeVersion2.clean_title text)).
  split; [reflexivity|].
  split; [apply take_length|].
  split.
  { apply take_forallb. unfold ClaudeVersion2.clean_title.
    apply collapse_forallb. rewrite replace_char.
    apply (map_forallb safe_char); [apply hyphenate_safe|].
    apply (filter_forallb safe_char). }
  split.
  { apply take_no_double_hyphen, collapse_no_double_hyphen. }
  apply format_02d_two_digits.
Qed.

Lemma extract_title_collapses_hyphens_witness :
  String.length (format_02d 7) = 2%nat /\
  str_forallb is_digit (format_02d 7) = true.
Proof.
  destruct (extract_title_collapses_hyphens "**Pay - the vendor**" "160" 7)
    as [title [_ [_ [_ [_ Hid]]]]].
  apply Hid. lia.
Defined.

(** ** The main block of [analyze_rpg_final_restored.py] *)


Section MainFacts.

Variable ollama : nat -> string -> string -> nat -> option string.
Variables template program : string.

Let step := Restored.step ollama template program.





End MainFacts.



(** Two chunks with the same accepted reply are written to the same name:
    the second write replaces the file of the first. *)
Example main_loop_can_write_one_name_twice :
  map (fun f => snd (fst f))
      (Restored.files
         (Restored.main_loop
            (fun _ _ _ _ =>
               Some "## Identification ## Description ## Process Steps")
            "" "160" ["chunk one"; "chunk two"])) =
  ["UC-AP-160-XXX--Identification--Description--Process-Steps.md";
   "UC-AP-160-XXX--Identification--Description--Process-Steps.md"].
Proof. vm_compute. reflexivity. Qed.

(** ** When a chunk fails *)

Lemma lstrip_blank (s : string) :
  str_forallb is_space s = true -> lstrip s = "".
Proof.
  induction s as [|c s IH]; simpl; [reflexivity|].
  intros H. apply andb_prop in H. destruct H as [Hc Hs].
  rewrite Hc. now apply IH.
Qed.

Lemma lstrip_starts_with_text (s : string) :
  str_forallb is_space s = false ->
  exists c t, lstrip s = String c t /\ is_space c = false.
Proof.
  induction s as [|c s IH]; simpl; [discriminate|].
  destruct (is_space c) eqn:E; simpl.
  - exact IH.
  - intros _. exists c, s. split; [reflexivity|exact E].
Qed.

Lemma rstrip_keeps_text (c : ascii) (t : string) :
  is_space c = false -> is_empty (rstrip (String c t)) = false.
Proof.
  intros E. cbn [rstrip]. destruct (rstrip t); [rewrite E|]; reflexivity.
Qed.

Lemma strip_blank (s : string) :
  is_empty (strip s) = str_forallb is_space s.
Proof.
  unfold strip. destruct (str_forallb is_space s) eqn:E.
  - now rewrite (lstrip_blank s E).
  - destruct (lstrip_starts_with_text s E) as [c [t [-> Hc]]].
    now apply rstrip_keeps_text.
Qed.

Lemma truthy_strip (out : string) :
  truthy (Some (strip out)) = negb (str_forallb is_space out).
Proof.
  rewrite <- strip_blank. simpl. destruct (strip out); reflexivity.
Qed.

Lemma run_ollama_truthy
    (ollama : nat -> string -> string -> nat -> option string)
    (i : nat) (model prompt : string) :
  truthy (Restored.run_ollama ollama i model prompt) =
  negb (gives_nothing ollama i model prompt).
Proof.
  unfold Restored.run_ollama, Restored.RETRIES, gives_nothing.
  cbn [Restored.attempts].
  destruct (ollama i model prompt 0%nat) as [out|]; [apply truthy_strip|].
  destruct (ollama i model prompt 1%nat) as [out|]; [apply truthy_strip|].
  reflexivity.
Qed.

(** A chunk gets a failure note exactly when neither model gives a text.  A
    model is tried again only after a timeout, at most twice; a reply of
    white space alone is not tried again and sends the chunk to the fallback
    model. *)
Theorem chunk_fails_when_no_model_answers
    (ollama : nat -> string -> string -> nat -> option string)
    (template program : string) (st : Restored.run_state)
    (i : nat) (chunk : string) :
  List.length
    (filter in_logdir
       (Restored.files (Restored.step ollama template program st (i, chunk)))) =
  (List.length (filter in_logdir (Restored.files st)) +
   if gives_nothing ollama i Restored.PRIMARY_MODEL
        (Restored.build_prompt template chunk program) &&
      gives_nothing ollama i Restored.FALLBACK_MODEL
        (Restored.build_prompt template chunk program)
   then 1 else 0)%nat.
Proof.
  unfold Restored.step.
  set (prompt := Restored.build_prompt template chunk program).
  pose proof (run_ollama_truthy ollama i Restored.PRIMARY_MODEL prompt) as Hp.
  pose proof (run_ollama_truthy ollama i Restored.FALLBACK_MODEL prompt) as Hf.
  unfold or_else.
  destruct (gives_nothing ollama i Restored.PRIMARY_MODEL prompt);
    simpl in Hp; rewrite Hp.
  - destruct (gives_nothing ollama i Restored.FALLBACK_MODEL prompt);
      simpl in Hf; cbn [andb].
    + destruct (Restored.run_ollama ollama i Restored.FALLBACK_MODEL prompt)
        as [[|c r]|]; try discriminate;
        cbn [Restored.files]; rewrite filter_app, length_app; reflexivity.
    + destruct (Restored.run_ollama ollama i Restored.FALLBACK_MODEL prompt)
        as [[|c r]|]; try discriminate.
      destruct (Restored.is_valid (Restored.normalize (String c r)));
        cbn [Restored.files]; rewrite filter_app, length_app; simpl; lia.
  - cbn [andb].
    destruct (Restored.run_ollama ollama i Restored.PRIMARY_MODEL prompt)
      as [[|c r]|]; try discriminate.
    destruct (Restored.is_valid (Restored.normalize (String c r)));
      cbn [Restored.files]; rewrite filter_app, length_app; simpl; lia.
Qed.

(** ** The normalizer, line by line *)

Section ReplaceGrows.

Variables old new : string.
Hypothesis Hold_ne : old <> "".
Hypothesis Hlonger : (String.length old < String.length new)%nat.

Lemma replace_grows_bounded (n : nat) (s : string) :
  (String.length s <= n)%nat ->
  (String.length s <= String.length (replace old new s))%nat /\
  (contains old s = true ->
   (String.length s < String.length (replace old new s))%nat).
Proof.
  revert s. induction n as [|n IH]; intros s Hlen.
  - destruct s; [|simpl in Hlen; lia]. split; [simpl; lia|].
    simpl. rewrite orb_false_r. clear - Hold_ne.
    destruct old; [congruence|discriminate].
  - destruct (String.prefix old s) eqn:E.
    + pose proof (prefix_split old s E) as Hs.
      apply (f_equal String.length) in Hs. rewrite str_app_length in Hs.
      assert (1 <= String.length old)%nat
        by (clear - Hold_ne; destruct old; [congruence|simpl; lia]).
      destruct (IH (drop (String.length old) s) ltac:(lia)) as [Hle _].
      rewrite (replace_match old new s Hold_ne E), str_app_length.
      split; [lia|intros _; lia].
    + destruct s as [|c s].
      * split; [simpl; lia|]. simpl. rewrite orb_false_r.
        clear - Hold_ne. destruct old; [congruence|discriminate].
      * rewrite (replace_miss old new c s E).
        destruct (IH s ltac:(simpl in Hlen; lia)) as [Hle Hlt].
        split; [simpl; lia|].
        cbn [contains]. rewrite E. simpl. intros H. apply Hlt in H.
        simpl. lia.
Qed.

Lemma replace_not_shorter (s : string) :
  (String.length s <= String.length (replace old new s))%nat.
Proof. apply (replace_grows_bounded (String.length s)). lia. Qed.

Lemma replace_longer (s : string) :
  contains old s = true ->
  (String.length s < String.length (replace old new s))%nat.
Proof. apply (replace_grows_bounded (String.length s)). lia. Qed.

End ReplaceGrows.

(** A line in which a synonym occurs comes out longer. *)
Lemma normalize_headers_lengthens (line : string) :
  mentions_synonym line = true ->
  (String.length line <
   String.length (MistralFinal.normalize_headers line))%nat.
Proof.
  unfold mentions_synonym, MistralFinal.normalize_headers,
    MistralFinal.replacements.
  cbn [existsb fold_left fst snd]. rewrite orb_false_r. intros H.
  set (t1 := replace "## Input Validation" "## Input Type Validation Checks" line).
  set (t2 := replace "## Validation Rules" "## Input Type Validation Checks" t1).
  set (t3 := replace "## Entities Used" "## Entities Used / Tables Used" t2).
  assert (H1 : (String.length line <= String.length t1)%nat)
    by (apply replace_not_shorter; [discriminate|simpl; lia]).
  assert (H2 : (String.length t1 <= String.length t2)%nat)
    by (apply replace_not_shorter; [discriminate|simpl; lia]).
  assert (H3 : (String.length t2 <= String.length t3)%nat)
    by (apply replace_not_shorter; [discriminate|simpl; lia]).
  assert (H4 : (String.length t3 <=
                String.length (replace "## Tables Used"
                                 "## Entities Used / Tables Used" t3))%nat)
    by (apply replace_not_shorter; [discriminate|simpl; lia]).
  destruct (contains "## Input Validation" line) eqn:E1.
  { assert (String.length line < String.length t1)%nat
      by (apply replace_longer; [discriminate|simpl; lia|exact E1]). lia. }
  assert (Et1 : t1 = line) by (apply replace_absent; exact E1).
  destruct (contains "## Validation Rules" line) eqn:E2.
  { assert (String.length t1 < String.length t2)%nat
      by (apply replace_longer; [discriminate|simpl; lia|now rewrite Et1]). lia. }
  assert (Et2 : t2 = line)
    by (unfold t2; rewrite Et1; apply replace_absent; exact E2).
  destruct (contains "## Entities Used" line) eqn:E3.
  { assert (String.length t2 < String.length t3)%nat
      by (apply replace_longer; [discriminate|simpl; lia|now rewrite Et2]). lia. }
  assert (Et3 : t3 = line)
    by (unfold t3; rewrite Et2; apply replace_absent; exact E3).
  simpl in H.
  assert (String.length t3 <
          String.length (replace "## Tables Used"
                           "## Entities Used / Tables Used" t3))%nat
    by (apply replace_longer; [discriminate|simpl; lia|now rewrite Et3]).
  lia.
Qed.

Lemma validation_header_made (line : string) :
  contains "## Input Validation" line || contains "## Validation Rules" line
    = true ->
  contains "## Input Type Validation Checks"
           (MistralFinal.normalize_headers line) = true.
Proof.
  unfold MistralFinal.normalize_headers, MistralFinal.replacements.
  cbn [fold_left fst snd]. intros H.
  do 2 kept_by_replace.
  destruct (contains "## Input Validation" line) eqn:E1.
  - kept_by_replace. apply replace_creates; [discriminate|exact E1].
  - simpl in H. apply replace_creates; [discriminate|].
    kept_by_replace. exact H.
Qed.

Lemma entities_header_made (line : string) :
  contains "## Entities Used" line || contains "## Tables Used" line = true ->
  contains "## Entities Used / Tables Used"
           (MistralFinal.normalize_headers line) = true.
Proof.
  unfold MistralFinal.normalize_headers, MistralFinal.replacements.
  cbn [fold_left fst snd]. intros H.
  destruct (contains "## Entities Used" line) eqn:E1.
  - kept_by_replace. apply replace_creates; [discriminate|].
    do 2 kept_by_replace. exact E1.
  - simpl in H. apply replace_creates; [discriminate|].
    do 3 kept_by_replace. exact H.
Qed.

(** C9, as the code has it.  The normalizer keeps the number of lines and
    works on each line by itself.  It returns unchanged every line in which
    none of the synonym headers occurs.  A line in which one occurs, header
    line or not, is changed: it comes out longer and holds the canonical
    header of each synonym that occurred in it. *)
Theorem normalize_headers_keeps_lines_without_synonym (text : string) :
  split_nl (MistralFinal.normalize_headers text) =
    map MistralFinal.normalize_headers (split_nl text) /\
  List.length (split_nl (MistralFinal.normalize_headers text)) =
    List.length (split_nl text) /\
  (forall i line,
     nth_error (split_nl text) i = Some line ->
     mentions_synonym line = false ->
     nth_error (split_nl (MistralFinal.normalize_headers text)) i = Some line) /\
  AnalyzeAll.normalize_headers text = MistralFinal.normalize_headers text /\
  (forall i line,
     nth_error (split_nl text) i = Some line ->
     mentions_synonym line = true ->
     exists line',
       nth_error (split_nl (MistralFinal.normalize_headers text)) i
         = Some line' /\
       line' = MistralFinal.normalize_headers line /\
       line' <> line /\
       (String.length line < String.length line')%nat /\
       (contains "## Input Validation" line
          || contains "## Validation Rules" line = true ->
        contains "## Input Type Validation Checks" line' = true) /\
       (contains "## Entities Used" line
          || contains "## Tables Used" line = true ->
        contains "## Entities Used / Tables Used" line' = true)).
Proof.
  assert (E : split_nl (MistralFinal.normalize_headers text) =
              map MistralFinal.normalize_headers (split_nl text))
    by apply (table_split MistralFinal.replacements text mistral_table_line_local).
  split; [exact E|].
  split; [now rewrite E, length_map|].
  split.
  { intros i line Hi Hfree. rewrite E, nth_error_map, Hi. simpl. f_equal.
    apply (table_absent MistralFinal.replacements line Hfree). }
  split; [reflexivity|].
  intros i line Hi Hsyn.
  exists (MistralFinal.normalize_headers line).
  split; [now rewrite E, nth_error_map, Hi|].
  split; [reflexivity|].
  pose proof (normalize_headers_lengthens line Hsyn) as Hlen.
  split; [intros Heq; rewrite Heq in Hlen; lia|].
  split; [exact Hlen|].
  split; [apply validation_header_made|apply entities_header_made].
Qed.

Lemma normalize_headers_keeps_lines_without_synonym_witness :
  nth_error
    (split_nl (MistralFinal.normalize_headers
                 ("## Tables Used" ++ String nl "- VENDOR"))) 1 =
  Some "- VENDOR" /\
  exists line',
    nth_error
      (split_nl (MistralFinal.normalize_headers
                   ("## Tables Used" ++ String nl "- VENDOR"))) 0 = Some line' /\
    line' <> "## Tables Used".
Proof.
  destruct (normalize_headers_keeps_lines_without_synonym
              ("## Tables Used" ++ String nl "- VENDOR"))
    as [_ [_ [Hsame [_ Hchanged]]]].
  split.
  - apply Hsame; reflexivity.
  - destruct (Hchanged 0%nat "## Tables Used" eq_refl eq_refl)
      as [line' [Hline [_ [Hne _]]]].
    exists line'. split; [exact Hline|exact Hne].
Defined.
